(** * Reynolds_viewer: the numeric core of [Reynolds_viewer.py]

    The program evaluates one closed formula over a grid, masks the
    result by a display range and hands the arrays to a plotting
    library.  Python's [float] and NumPy's [float64] are IEEE 754
    binary64 numbers: they are modelled by Rocq's primitive floats,
    whose operations are the same machine operations and are specified
    against [SpecFloat] by the library.  What Python and NumPy add on
    top of the arithmetic is modelled explicitly: a division of two
    plain Python floats raises [ZeroDivisionError] on a zero divisor,
    NumPy's division never raises, and NumPy broadcasts arrays or
    raises [ValueError] on shapes that do not fit. *)

From Stdlib Require Import ZArith List Bool Lia Floats Reals Lra.
Import ListNotations.

Set Implicit Arguments.

(** ** Exceptions *)

Inductive exn : Type :=
| ZeroDivisionError
| ValueError.

Inductive result (A : Type) : Type :=
| Ok (a : A)
| Raise (e : exn).

Arguments Ok {A} a.
Arguments Raise {A} e.

Definition bind {A B : Type} (r : result A) (k : A -> result B) : result B :=
  match r with
  | Ok a => k a
  | Raise e => Raise e
  end.

Notation "x <- c ;; k" := (bind c (fun x => k))
  (at level 61, c at next level, right associativity).

Fixpoint mapM {A B : Type} (f : A -> result B) (l : list A) : result (list B) :=
  match l with
  | [] => Ok []
  | a :: t => b <- f a ;; bs <- mapM f t ;; Ok (b :: bs)
  end.

(** ** Numbers *)

(** A Python [int] used where a float is expected ([4 * density],
    [np.linspace(1, 20, 100)], [Z < z_min]) is converted to the float of
    the same value; the conversion is exact below [2^53], which covers
    every integer of the program. *)
Definition float_of_int (z : Z) : float :=
  match z with
  | Z0 => 0%float
  | Zpos _ => of_uint63 (Uint63.of_Z z)
  | Zneg p => (- of_uint63 (Uint63.of_Z (Zpos p)))%float
  end.

(** [math.pi], the binary64 number nearest to pi. *)
Definition math_pi : float := 0x1.921fb54442d18p+1%float.

(** A NumPy scalar ([np.float64]), which is what indexing an array
    yields.  It carries the same binary64 value as a Python float but
    its operators are NumPy's. *)
Record float64 : Type := F64 { f64 : float }.

(** ** Python's operators, resolved by the types of the operands *)

Class Mul (A B C : Type) := mul : A -> B -> C.
Class TrueDiv (A B C : Type) := truediv : A -> B -> result C.
Class Pi (A : Type) := pi_const : A.

Declare Scope py_scope.
Delimit Scope py_scope with py.
Infix "*" := mul : py_scope.
Infix "/" := truediv : py_scope.

(** NumPy's broadcasting of two arrays along one axis: an axis of
    length one is stretched, equal lengths are combined position by
    position, anything else is a [ValueError].  An array is a list of
    its entries along the first axis. *)
Definition broadcast {A B C : Type} (f : A -> B -> result C)
    (a : list A) (b : list B) : result (list C) :=
  match a, b with
  | [x], _ => mapM (f x) b
  | _, [y] => mapM (fun x => f x y) a
  | _, _ =>
    if Nat.eqb (length a) (length b)
    then mapM (fun p => f (fst p) (snd p)) (combine a b)
    else Raise ValueError
  end.

Module Binary64.

#[export] Instance pi_float : Pi float := math_pi.

  (** [int * float], [float * float], [float * int]. *)
#[export] Instance mul_int_float : Mul Z float float :=
    fun a b => (float_of_int a * b)%float.
#[export] Instance mul_float_float : Mul float float float :=
    fun a b => (a * b)%float.
#[export] Instance mul_float_int : Mul float Z float :=
    fun a b => (a * float_of_int b)%float.
  (** [float * np.float64]. *)
#[export] Instance mul_float_float64 : Mul float float64 float64 :=
    fun a b => F64 (a * f64 b).
  (** [float * ndarray]: every entry is multiplied. *)
#[export] Instance mul_float_array {B C : Type} `{Mul float B C} :
    Mul float (list B) (list C) :=
    fun a l => map (fun b => mul a b) l.

  (** [float / float]: Python raises on a zero divisor. *)
#[export] Instance truediv_float_float : TrueDiv float float float :=
    fun a b => if is_zero b then Raise ZeroDivisionError else Ok (a / b)%float.
  (** As soon as one operand is a NumPy scalar or array the division is
      NumPy's [true_divide]: IEEE 754 division, a warning at most. *)
#[export] Instance truediv_float64_float : TrueDiv float64 float float64 :=
    fun a b => Ok (F64 (f64 a / b)).
#[export] Instance truediv_float_float64 : TrueDiv float float64 float64 :=
    fun a b => Ok (F64 (a / f64 b)).
#[export] Instance truediv_float64_float64 : TrueDiv float64 float64 float64 :=
    fun a b => Ok (F64 (f64 a / f64 b)).
#[export] Instance truediv_array1_float : TrueDiv (list float) float (list float) :=
    fun a b => Ok (map (fun x => (x / b)%float) a).
#[export] Instance truediv_float_array1 : TrueDiv float (list float) (list float) :=
    fun a b => Ok (map (fun y => (a / y)%float) b).
#[export] Instance truediv_array1_array1 :
    TrueDiv (list float) (list float) (list float) :=
    broadcast (fun x y => Ok (x / y)%float).
#[export] Instance truediv_array2_float :
    TrueDiv (list (list float)) float (list (list float)) :=
    fun a b => Ok (map (map (fun x => (x / b)%float)) a).
#[export] Instance truediv_array2_array2 :
    TrueDiv (list (list float)) (list (list float)) (list (list float)) :=
    broadcast (broadcast (fun x y => Ok (x / y)%float)).

End Binary64.

(** ** The two functions of the program *)

Section Reynolds.

Context {S X Y N D Q : Type}.
Context `{Mul Z S S} `{Mul S S S} `{Pi S}.
Context `{Mul S X N} `{Mul S Y D} `{TrueDiv N D Q}.

  (** [def reynolds(x, y, density, viscosity):
         return (4 * density * x) / (60 * viscosity * math.pi * y)] *)
Definition reynolds (x : X) (y : Y) (density viscosity : S) : result Q :=
    ((4%Z * density * x) / (60%Z * viscosity * pi_const * y))%py.

End Reynolds.

(** ** NumPy's elementwise functions *)

Fixpoint map2 {A B C : Type} (f : A -> B -> C) (l1 : list A) (l2 : list B) : list C :=
  match l1, l2 with
  | a :: t1, b :: t2 => f a b :: map2 f t1 t2
  | _, _ => []
  end.

(** What [mask_z_values] asks of its argument: comparison with a
    scalar ([Z < s], [Z > s]), [|] on the boolean results and
    [np.where(cond, s, Z)].  [Z > s] is IEEE 754 "greater", that is
    [s < Z].  The operands of [|] and of [np.where] are all computed
    from the one array [Z] and have its shape. *)
Class NDArray (A : Type) := {
  bool_array : Type;
  less : A -> float -> bool_array;
  greater : A -> float -> bool_array;
  logical_or : bool_array -> bool_array -> bool_array;
  where_ : bool_array -> float -> A -> A
}.

#[export] Instance ndarray_scalar : NDArray float := {
  bool_array := bool;
  less := fun z s => (z <? s)%float;
  greater := fun z s => (s <? z)%float;
  logical_or := orb;
  where_ := fun (c : bool) s z => if c then s else z
}.

#[export] Instance ndarray_axis {A : Type} `{NDArray A} : NDArray (list A) := {
  bool_array := list bool_array;
  less := fun Z s => map (fun z => less z s) Z;
  greater := fun Z s => map (fun z => greater z s) Z;
  logical_or := map2 logical_or;
  where_ := fun c s Z => map2 (fun ci zi => where_ ci s zi) c Z
}.

(** [def mask_z_values(Z, z_min, z_max):
       Z_masked = np.where((Z < z_min) | (Z > z_max), np.nan, Z)
       return Z_masked] *)
Definition mask_z_values {A : Type} `{NDArray A} (Z : A) (z_min z_max : float) : A :=
  let Z_masked := where_ (logical_or (less Z z_min) (greater Z z_max)) nan Z in
  Z_masked.

(** ** NumPy's array constructors *)

(** [np.arange(0, num)] as floats, from [k]. *)
Fixpoint arange (k : Z) (num : nat) : list float :=
  match num with
  | O => []
  | S n => float_of_int k :: arange (k + 1) n
  end.

(** [np.linspace(start, stop, num)] with its defaults, as NumPy computes
    it: the indices are scaled by [step = (stop - start) / (num - 1)]
    (by [delta] after a division by [num - 1] when the step vanishes),
    shifted by [start], and the last entry is overwritten by [stop]. *)
Definition linspace (start stop : float) (num : nat) : list float :=
  let div := (num - 1)%nat in
  let delta := (stop - start)%float in
  let y := arange 0 num in
  let y :=
    if Nat.ltb 0 div then
      let step := (delta / float_of_int (Z.of_nat div))%float in
      if (step =? 0)%float
      then map (fun e => (e / float_of_int (Z.of_nat div) * delta)%float) y
      else map (fun e => (e * step)%float) y
    else map (fun e => (e * delta)%float) y in
  let y := map (fun e => (e + start)%float) y in
  if Nat.ltb 1 num then firstn (num - 1) y ++ [stop] else y.

(** [np.meshgrid(x, y)]: [X[i][j] = x[j]] and [Y[i][j] = y[i]], both of
    shape [(len(y), len(x))]. *)
Definition meshgrid (x y : list float) : list (list float) * list (list float) :=
  (map (fun _ => x) y, map (fun yi => map (fun _ => yi) x) y).

(** [np.full_like(a, fill)] for a two-dimensional float array. *)
Definition full_like (a : list (list float)) (fill : Z) : list (list float) :=
  map (map (fun _ => float_of_int fill)) a.

(** ** The computation of [main] *)

(** The values read from the sidebar widgets. *)
Record params : Type := {
  viscosity : float;
  density : float;
  x_min : Z; x_max : Z;
  y_min : Z; y_max : Z;
  z_min : Z; z_max : Z;
  y_value : Z
}.

(** The arrays handed to the two figures. *)
Record figures : Type := {
  x : list float;
  y : list float;
  X : list (list float);
  Y : list (list float);
  Z_masked : list (list float);
  Z_boundary : list (list float);
  Z_y_fixed_masked : list float
}.

Import Binary64.

Definition main (p : params) : result figures :=
  let x := linspace (float_of_int (x_min p)) (float_of_int (x_max p)) 100 in
  let y := linspace (float_of_int (y_min p)) (float_of_int (y_max p)) 100 in
  let '(X, Y) := meshgrid x y in
  Z <- reynolds X Y (density p) (viscosity p) ;;
  let Z_masked :=
    mask_z_values Z (float_of_int (z_min p)) (float_of_int (z_max p)) in
  let Z_boundary := full_like X 2000 in
  Z_y_fixed <- reynolds x (y_value p) (density p) (viscosity p) ;;
  let Z_y_fixed_masked :=
    where_ (logical_or (less Z_y_fixed (float_of_int (z_min p)))
                       (greater Z_y_fixed (float_of_int (z_max p))))
           nan Z_y_fixed in
  Ok {| x := x; y := y; X := X; Y := Y; Z_masked := Z_masked;
        Z_boundary := Z_boundary; Z_y_fixed_masked := Z_y_fixed_masked |}.

(** The widgets' defaults; the viscosity and the density are the
    binary64 numbers that Python reads from [0.001016] and [999.974]. *)
Definition defaults : params :=
  {| viscosity := 0x1.0a569b17481b2p-10%float;
     density := 0x1.f3fcac083126fp+9%float;
     x_min := 1; x_max := 20; y_min := 1; y_max := 250;
     z_min := 1; z_max := 5000; y_value := 250 |}.

(** * The vocabulary of the properties *)

Section Vocabulary.

Local Open Scope float_scope.

(** Entry [[i][j]] of a two-dimensional array. *)
Definition entry2 {A : Type} (a : list (list A)) (i j : nat) : option A :=
  match nth_error a i with
  | Some row => nth_error row j
  | None => None
  end.

(** The shape of a two-dimensional array: the lengths of its rows. *)
Definition shape2 {A : Type} (a : list (list A)) : list nat :=
  map (@length A) a.

(** The formula of the specification,
    [(4 * density * flow_rate) / (60 * viscosity * pi * diameter)],
    evaluated from left to right in binary64 arithmetic with IEEE 754
    division. *)
Definition reynolds_number (flow_rate diameter density viscosity : float) : float :=
  (4 * density * flow_rate) / (60 * viscosity * math_pi * diameter).

(** The flow rates and the diameters of the grid, and the two bounds of
    the display range as NumPy compares them with the array. *)
Definition flow_rates (p : params) : list float :=
  linspace (float_of_int (x_min p)) (float_of_int (x_max p)) 100.

Definition diameters (p : params) : list float :=
  linspace (float_of_int (y_min p)) (float_of_int (y_max p)) 100.

Definition z_low (p : params) : float := float_of_int (z_min p).
Definition z_high (p : params) : float := float_of_int (z_max p).

(** What the contract says of one entry [v] of the input and the entry
    [out] found at the same place of the output. *)
Definition masked_entry (low high v : float) (out : option float) : Prop :=
  ((v <? low) = true \/ (high <? v) = true -> out = Some nan) /\
  ((low <=? v) = true -> (v <=? high) = true -> out = Some v) /\
  ((low <=? high) = true -> v = low \/ v = high -> out = Some v).

(** What happens to an anomalous entry [v], [out] being the entry of
    the output at the same place: NaN stays NaN, an infinity outside the
    range becomes NaN, and an output entry that is finite is the input
    entry, which then was finite and in range. *)
Definition anomaly_masked (low high v out : float) : Prop :=
  (is_nan v = true -> out = nan) /\
  (is_infinity v = true -> (v <? low) = true \/ (high <? v) = true ->
   out = nan) /\
  (is_finite out = true ->
   out = v /\ (low <=? v) = true /\ (v <=? high) = true).

(** A zero of either sign, or NaN. *)
Definition sf_null (p : spec_float) : bool :=
  match p with
  | S754_zero _ | S754_nan => true
  | _ => false
  end.

(** An infinity of either sign, or NaN. *)
Definition sf_unbounded (p : spec_float) : bool :=
  match p with
  | S754_infinity _ | S754_nan => true
  | _ => false
  end.

(** Not below zero: NaN, a zero of either sign, or a number or infinity
    with the sign bit clear. *)
Definition sf_nonneg (p : spec_float) : bool :=
  match p with
  | S754_nan | S754_zero _ => true
  | S754_infinity s | S754_finite s _ _ => negb s
  end.

(** The sign bit clear, or NaN. *)
Definition sf_plus (p : spec_float) : bool :=
  match p with
  | S754_nan => true
  | S754_zero s | S754_infinity s | S754_finite s _ _ => negb s
  end.

(** The check of one bound of the display range, an integer of the
    slider: as a float it is finite and above zero. *)
Definition bound_ok (z : Z) : bool :=
  is_finite (float_of_int z) && (0 <? float_of_int z).

(** [f] holds of the [n] integers from [z] on. *)
Fixpoint all_from (f : Z -> bool) (z : Z) (n : nat) : bool :=
  match n with
  | O => true
  | S n' => f z && all_from f (z + 1) n'
  end.

(** Each entry of [l] is related by [R] to the next one. *)
Fixpoint adjacent (R : float -> float -> bool) (l : list float) : bool :=
  match l with
  | a :: (b :: _) as t => R a b && adjacent R t
  | _ => true
  end.

(** The first [n] entries of [l] are [k * step + start],
    [(k + 1) * step + start], ... as binary64 arithmetic computes
    them. *)
Fixpoint stepped (start step : float) (k : Z) (n : nat) (l : list float) : bool :=
  match n with
  | O => true
  | S n' =>
    match l with
    | a :: t =>
      Leibniz.eqb a (float_of_int k * step + start) &&
      stepped start step (k + 1) n' t
    | [] => false
    end
  end.

(** The check of an axis whose two bounds coincide: the step is zero
    and NumPy takes its other branch. *)
Definition axis_flat_ok (lo : Z) : bool :=
  let start := float_of_int lo in
  let l := linspace start start 100 in
  Leibniz.eqb (nth 0 l nan) start &&
  stepped start ((start - start) / 99) 0 99 l &&
  adjacent leb l.

(** The check of an axis with [lo < hi].  [climbs] walks the entries
    below the last place, each [e * step + start] for the index [e]
    counted in binary64, and asks each to be above the one before and
    the last one to be below [stop]. *)
Fixpoint climbs (step start stop : float) (n : nat) (e prev : float) : bool :=
  match n with
  | O => prev <? stop
  | S n' =>
    let e' := e + 1 in
    let cur := e' * step + start in
    (prev <? cur) && climbs step start stop n' e' cur
  end.

Definition axis_climb_ok (lo hi : Z) : bool :=
  let start := float_of_int lo in
  let stop := float_of_int hi in
  let step := (stop - start) / 99 in
  negb (step =? 0) &&
  Leibniz.eqb (0 * step + start) start &&
  climbs step start stop 98 0 start.

Definition zrange (a : Z) (n : nat) : list Z :=
  map (fun k => (a + Z.of_nat k)%Z) (seq 0 n).

(** One axis of the grid: a sequence of 100 numbers from [lo] to [hi],
    whose entry [i < 99] is [lo + i * step] for the one
    [step = (hi - lo) / 99], all in binary64 arithmetic, and whose
    entries never decrease, and increase when [lo < hi]. *)
Definition axis_sequence (lo hi : Z) (l : list float) : Prop :=
  length l = 100%nat /\
  nth_error l 0 = Some (float_of_int lo) /\
  nth_error l 99 = Some (float_of_int hi) /\
  (forall i, (i < 99)%nat ->
     nth_error l i
     = Some (float_of_int (Z.of_nat i)
             * ((float_of_int hi - float_of_int lo) / 99)
             + float_of_int lo)) /\
  (forall i a b, nth_error l i = Some a -> nth_error l (S i) = Some b ->
     (a <=? b) = true /\ ((lo < hi)%Z -> (a <? b) = true)).

(** The real number that a binary64 number stands for: sign, mantissa
    and exponent as [Prim2SF] gives them; zeros, infinities and nan
    count as 0 and are excluded by [normal] wherever the value is used. *)
Definition sgn (s : bool) : R := (if s then -1 else 1)%R.

Definition SF2R (f : spec_float) : R :=
  match f with
  | S754_finite s m e => (sgn s * IZR (Z.pos m) * powerRZ 2 e)%R
  | _ => 0%R
  end.

Definition value (f : float) : R := SF2R (Prim2SF f).

(** A normal number: finite, not zero, with all 53 bits of the
    mantissa, hence neither an overflow nor an underflow. *)
Definition normal (f : float) : bool :=
  match Prim2SF f with
  | S754_finite _ m _ => (2 ^ 52 <=? Z.pos m)%Z
  | _ => false
  end.

(** The gap between 1 and the next binary64 number. *)
Definition epsilon64 : R := (/ IZR (2 ^ 52))%R.

(** Two real numbers that differ by the rounding of [n] operations:
    their ratio lies between [(1 - epsilon64)^n] and its inverse. *)
Definition near (n : nat) (a b : R) : Prop :=
  exists rho : R, a = (rho * b)%R /\
    ((1 - epsilon64) ^ n <= rho)%R /\ (rho * (1 - epsilon64) ^ n <= 1)%R.

(** Two binary64 numbers that agree up to a relative error of [2^-48]:
    sixteen units in the last place at most. *)
Definition rel_close (a b : float) : Prop :=
  (Rabs (value a - value b) <= / IZR (2 ^ 48) * Rabs (value b))%R.

End Vocabulary.

(** * Properties *)

(** ** The order of binary64 numbers *)

Section SpecOrder.

Local Ltac cmp_cases :=
  repeat match goal with
  | |- context [Z.compare ?a ?b] => destruct (Z.compare_spec a b)
  | H : context [Z.compare ?a ?b] |- _ => destruct (Z.compare_spec a b)
  | |- context [Pos.compare ?a ?b] => destruct (Pos.compare_spec a b)
  | H : context [Pos.compare ?a ?b] |- _ => destruct (Pos.compare_spec a b)
  end;
  simpl in *; subst; try congruence; try lia.

Local Ltac sf_cases :=
  repeat match goal with
  | f : spec_float |- _ => destruct f
  | b : bool |- _ => destruct b
  end;
  simpl in *; try congruence;
  repeat match goal with
  | |- context [Pos.compare_cont Eq ?a ?b] =>
    change (Pos.compare_cont Eq a b) with (Pos.compare a b)
  | H : context [Pos.compare_cont Eq ?a ?b] |- _ =>
    change (Pos.compare_cont Eq a b) with (Pos.compare a b) in H
  end.

Lemma SFcompare_nan_r (a : spec_float) : SFcompare a S754_nan = None.
Proof. destruct a; reflexivity. Qed.

Lemma SFcompare_refl (a : spec_float) :
  a <> S754_nan -> SFcompare a a = Some Eq.
Proof.
  intros Ha. destruct a as [s|s| |s m e]; try congruence; try (destruct s; reflexivity).
  simpl. rewrite Z.compare_refl.
  change (Pos.compare_cont Eq m m) with (Pos.compare m m).
  rewrite Pos.compare_refl. destruct s; reflexivity.
Qed.

Lemma SFleb_SFltb (a b : spec_float) :
  SFleb a b = true -> SFltb b a = false.
Proof.
  unfold SFleb, SFltb. sf_cases; cmp_cases.
Qed.

Lemma SFltb_SFleb_trans (a b c : spec_float) :
  SFltb a b = true -> SFltb c b = false -> c <> S754_nan -> SFltb a c = true.
Proof.
  unfold SFltb. sf_cases; cmp_cases.
Qed.

End SpecOrder.

Section FloatOrder.

Local Open Scope float_scope.

Lemma Prim2SF_nan : Prim2SF nan = S754_nan.
Proof. reflexivity. Qed.

Lemma ltb_nan_l (a : float) : (nan <? a) = false.
Proof. rewrite ltb_spec, Prim2SF_nan. reflexivity. Qed.

Lemma ltb_nan_r (a : float) : (a <? nan) = false.
Proof.
  rewrite ltb_spec, Prim2SF_nan. unfold SFltb.
  now rewrite SFcompare_nan_r.
Qed.

Lemma is_nan_true (a : float) : is_nan a = true <-> a = nan.
Proof.
  unfold is_nan. rewrite eqb_spec. split.
  - intros Ha. apply Prim2SF_inj. rewrite Prim2SF_nan.
    destruct (Prim2SF a) eqn:E; try reflexivity; exfalso;
      unfold SFeqb in Ha; rewrite SFcompare_refl in Ha by congruence;
      discriminate.
  - intros ->. reflexivity.
Qed.

Lemma is_nan_false (a : float) : is_nan a = false <-> Prim2SF a <> S754_nan.
Proof.
  split.
  - intros Ha E. assert (a = nan) as -> by (apply Prim2SF_inj; now rewrite E).
    discriminate Ha.
  - intros Ha. destruct (is_nan a) eqn:E; [|reflexivity].
    apply is_nan_true in E. subst a. now destruct Ha.
Qed.

Lemma ltb_irrefl (a : float) : (a <? a) = false.
Proof.
  rewrite ltb_spec. unfold SFltb.
  destruct (is_nan a) eqn:E.
  - apply is_nan_true in E. subst a. reflexivity.
  - apply is_nan_false in E. now rewrite SFcompare_refl.
Qed.

Lemma leb_not_ltb (a b : float) : (a <=? b) = true -> (b <? a) = false.
Proof. rewrite leb_spec, ltb_spec. apply SFleb_SFltb. Qed.

Lemma ltb_not_ltb_trans (a b c : float) :
  (a <? b) = true -> (c <? b) = false -> is_nan c = false -> (a <? c) = true.
Proof.
  rewrite !ltb_spec, is_nan_false. apply SFltb_SFleb_trans.
Qed.

End FloatOrder.

(** ** Arrays and their entries *)

Lemma entry2_map {A B : Type} (f : A -> B) (a : list (list A)) (i j : nat) :
  entry2 (map (map f) a) i j = option_map f (entry2 a i j).
Proof.
  unfold entry2. rewrite nth_error_map.
  destruct (nth_error a i) as [row|]; simpl; [apply nth_error_map | reflexivity].
Qed.

Lemma shape2_map {A B : Type} (f : A -> B) (a : list (list A)) :
  shape2 (map (map f) a) = shape2 a.
Proof.
  unfold shape2. rewrite map_map. apply map_ext. intros row. apply length_map.
Qed.

(** ** [mask_z_values] entry by entry *)

Section Mask.

Local Open Scope float_scope.

Variables low high : float.

Lemma mask_scalar (v : float) :
  mask_z_values v low high = if (v <? low) || (high <? v) then nan else v.
Proof. reflexivity. Qed.

Lemma mask_axis {A : Type} `{NDArray A} (Z : list A) :
  mask_z_values Z low high = map (fun z => mask_z_values z low high) Z.
Proof.
  unfold mask_z_values. simpl.
  induction Z as [|z Z IH]; simpl; [reflexivity | now rewrite IH].
Qed.

Lemma mask_array2 (Z : list (list float)) :
  mask_z_values Z low high = map (map (fun v => mask_z_values v low high)) Z.
Proof.
  rewrite mask_axis. apply map_ext. intros row. apply mask_axis.
Qed.

Lemma mask_entry1 (Z : list float) (i : nat) :
  nth_error (mask_z_values Z low high) i
  = option_map (fun v => mask_z_values v low high) (nth_error Z i).
Proof. rewrite mask_axis. apply nth_error_map. Qed.

Lemma mask_entry2 (Z : list (list float)) (i j : nat) :
  entry2 (mask_z_values Z low high) i j
  = option_map (fun v => mask_z_values v low high) (entry2 Z i j).
Proof. rewrite mask_array2. apply entry2_map. Qed.

Lemma mask_outside (v : float) :
  (v <? low) = true \/ (high <? v) = true -> mask_z_values v low high = nan.
Proof.
  rewrite mask_scalar. intros [-> | ->]; [reflexivity|].
  now rewrite orb_true_r.
Qed.

Lemma mask_inside (v : float) :
  (low <=? v) = true -> (v <=? high) = true -> mask_z_values v low high = v.
Proof.
  intros Hl Hh. rewrite mask_scalar.
  now rewrite (leb_not_ltb Hl), (leb_not_ltb Hh).
Qed.

Lemma mask_nan : mask_z_values nan low high = nan.
Proof. rewrite mask_scalar. now rewrite ltb_nan_l, ltb_nan_r. Qed.

Lemma mask_idem_scalar (v : float) :
  mask_z_values (mask_z_values v low high) low high = mask_z_values v low high.
Proof.
  rewrite (mask_scalar v).
  destruct ((v <? low) || (high <? v)) eqn:E; [apply mask_nan|].
  rewrite mask_scalar. now rewrite E.
Qed.

Lemma mask_idem_axis {A : Type} `{NDArray A} :
  (forall z : A, mask_z_values (mask_z_values z low high) low high
                 = mask_z_values z low high) ->
  forall Z : list A, mask_z_values (mask_z_values Z low high) low high
                     = mask_z_values Z low high.
Proof.
  intros Hz Z. rewrite !mask_axis, map_map. apply map_ext. intros z. apply Hz.
Qed.

End Mask.

Section FloatTotalOrder.

Local Open Scope float_scope.

Lemma SFltb_false_SFleb (a b : spec_float) :
  SFltb a b = false -> a <> S754_nan -> b <> S754_nan -> SFleb b a = true.
Proof.
  unfold SFltb, SFleb.
  destruct a as [sa|sa| |sa ma ea], b as [sb|sb| |sb mb eb];
    try congruence; try (destruct sa; simpl; congruence);
    try (destruct sb; simpl; congruence);
    try (destruct sa, sb; simpl; congruence).
  destruct sa, sb; simpl; try congruence;
    change (Pos.compare_cont Eq ma mb) with (Pos.compare ma mb);
    change (Pos.compare_cont Eq mb ma) with (Pos.compare mb ma);
    rewrite (Z.compare_antisym ea eb), (Pos.compare_antisym ma mb);
    destruct (Z.compare ea eb); simpl; try congruence;
    destruct (Pos.compare ma mb); simpl; congruence.
Qed.

Lemma not_ltb_leb (a b : float) :
  (a <? b) = false -> is_nan a = false -> is_nan b = false -> (b <=? a) = true.
Proof. rewrite ltb_spec, leb_spec, !is_nan_false. apply SFltb_false_SFleb. Qed.

Lemma leb_true_not_nan (a b : float) :
  (a <=? b) = true -> is_nan a = false /\ is_nan b = false.
Proof.
  rewrite leb_spec, !is_nan_false. unfold SFleb. intros H.
  split; intros E; rewrite E in H.
  - discriminate H.
  - rewrite SFcompare_nan_r in H. discriminate H.
Qed.

Lemma is_finite_not_nan (a : float) : is_finite a = true -> is_nan a = false.
Proof.
  unfold is_finite. destruct (is_nan a); [discriminate | reflexivity].
Qed.

End FloatTotalOrder.

(** ** The contract of [mask_z_values] *)

Section MaskContract.

Local Open Scope float_scope.

Lemma masked_entry_mask (low high v : float) :
  masked_entry low high v (Some (mask_z_values v low high)).
Proof.
  repeat split.
  - intros Hv. now rewrite mask_outside.
  - intros Hl Hh. now rewrite mask_inside.
  - intros Hlh [-> | ->]; rewrite mask_scalar.
    + now rewrite ltb_irrefl, (leb_not_ltb Hlh).
    + now rewrite ltb_irrefl, (leb_not_ltb Hlh).
Qed.

(** C2.  For an array of one or of two dimensions and any bounds,
    [mask_z_values] returns an array of the same shape; an entry
    strictly below [low] or strictly above [high] becomes NaN; an entry
    with [low <= v <= high] is returned unchanged, and so are the bounds
    themselves when [low <= high]. *)
Theorem mask_z_values_contract (low high : float) :
  (forall Z : list float,
     length (mask_z_values Z low high) = length Z /\
     forall i v, nth_error Z i = Some v ->
       masked_entry low high v (nth_error (mask_z_values Z low high) i)) /\
  (forall Z : list (list float),
     shape2 (mask_z_values Z low high) = shape2 Z /\
     forall i j v, entry2 Z i j = Some v ->
       masked_entry low high v (entry2 (mask_z_values Z low high) i j)).
Proof.
  split; intros Z; split.
  - rewrite mask_axis. apply length_map.
  - intros i v Hv. rewrite mask_entry1, Hv. apply masked_entry_mask.
  - rewrite mask_array2. apply shape2_map.
  - intros i j v Hv. rewrite mask_entry2, Hv. apply masked_entry_mask.
Qed.

(** C5.  Masking twice with the same bounds is masking once, for a
    scalar and for arrays of one and two dimensions. *)
Theorem mask_z_values_idempotent (low high : float) :
  (forall v : float,
     mask_z_values (mask_z_values v low high) low high
     = mask_z_values v low high) /\
  (forall Z : list float,
     mask_z_values (mask_z_values Z low high) low high
     = mask_z_values Z low high) /\
  (forall Z : list (list float),
     mask_z_values (mask_z_values Z low high) low high
     = mask_z_values Z low high).
Proof.
  pose proof (mask_idem_scalar low high) as H0.
  pose proof (@mask_idem_axis low high _ _ H0) as H1.
  pose proof (@mask_idem_axis low high _ _ H1) as H2.
  auto.
Qed.

Lemma anomaly_masked_mask (low high v : float) :
  (low <=? high) = true ->
  anomaly_masked low high v (mask_z_values v low high).
Proof.
  intros Hlh. destruct (leb_true_not_nan Hlh) as [Hl Hh].
  repeat split.
  - intros Hv. apply is_nan_true in Hv. subst v. apply mask_nan.
  - intros _ Hout. now apply mask_outside.
  - revert H. rewrite mask_scalar.
    destruct ((v <? low) || (high <? v)); [discriminate | reflexivity].
  - revert H. rewrite mask_scalar.
    destruct (v <? low) eqn:E1; [discriminate|].
    destruct (high <? v) eqn:E2; [discriminate|]. simpl. intros Hf.
    apply not_ltb_leb; auto using is_finite_not_nan.
  - revert H. rewrite mask_scalar.
    destruct (v <? low) eqn:E1; [discriminate|].
    destruct (high <? v) eqn:E2; [discriminate|]. simpl. intros Hf.
    apply not_ltb_leb; auto using is_finite_not_nan.
Qed.

(** C9.  With [low <= high], masking is a total function (nothing is
    raised) under which a NaN entry stays NaN, an infinite entry
    outside the range becomes NaN, and every finite entry of the output
    is a finite entry of the input that lies in the range. *)
Theorem mask_z_values_anomalies (low high : float)
    (Hrange : (low <=? high) = true) :
  (forall (Z : list float) i v, nth_error Z i = Some v ->
     exists out, nth_error (mask_z_values Z low high) i = Some out /\
                 anomaly_masked low high v out) /\
  (forall (Z : list (list float)) i j v, entry2 Z i j = Some v ->
     exists out, entry2 (mask_z_values Z low high) i j = Some out /\
                 anomaly_masked low high v out).
Proof.
  split.
  - intros Z i v Hv. exists (mask_z_values v low high).
    rewrite mask_entry1, Hv. split; [reflexivity|].
    now apply anomaly_masked_mask.
  - intros Z i j v Hv. exists (mask_z_values v low high).
    rewrite mask_entry2, Hv. split; [reflexivity|].
    now apply anomaly_masked_mask.
Qed.

Lemma mask_inverted (low high v : float) :
  (high <? low) = true -> mask_z_values v low high = nan.
Proof.
  intros Hinv. destruct (is_nan v) eqn:Hv.
  - apply is_nan_true in Hv. subst v. apply mask_nan.
  - rewrite mask_scalar. destruct (v <? low) eqn:E; [reflexivity|].
    now rewrite (ltb_not_ltb_trans Hinv E Hv).
Qed.

(** C10.  With inverted bounds, [low > high], every entry of the output
    is NaN: an entry that is not NaN is strictly below [low] or strictly
    above [high] and is replaced, and a NaN entry stays. *)
Theorem mask_z_values_inverted (low high : float)
    (Hinv : (high <? low) = true) :
  (forall v : float,
     is_nan v = false -> (v <? low) = true \/ (high <? v) = true) /\
  (forall (Z : list float) i v, nth_error Z i = Some v ->
     nth_error (mask_z_values Z low high) i = Some nan) /\
  (forall (Z : list (list float)) i j v, entry2 Z i j = Some v ->
     entry2 (mask_z_values Z low high) i j = Some nan).
Proof.
  repeat split.
  - intros v Hv. destruct (v <? low) eqn:E; [now left | right].
    exact (ltb_not_ltb_trans Hinv E Hv).
  - intros Z i v Hv. rewrite mask_entry1, Hv. cbn [option_map].
    now rewrite mask_inverted.
  - intros Z i j v Hv. rewrite mask_entry2, Hv. cbn [option_map].
    now rewrite mask_inverted.
Qed.

Lemma mask_z_values_contract_witness :
  entry2 (mask_z_values [[0; 1; 5000; 6000]] 1 5000) 0 3 = Some nan /\
  entry2 (mask_z_values [[0; 1; 5000; 6000]] 1 5000) 0 2 = Some 5000.
Proof.
  split.
  - apply (proj2 (proj2 (mask_z_values_contract 1 5000) [[0; 1; 5000; 6000]])
                 0%nat 3%nat 6000 eq_refl).
    right. reflexivity.
  - apply (proj2 (proj2 (mask_z_values_contract 1 5000) [[0; 1; 5000; 6000]])
                 0%nat 2%nat 5000 eq_refl).
    + reflexivity.
    + now right.
Defined.

Lemma mask_z_values_anomalies_witness :
  exists out : float,
    nth_error (mask_z_values [nan; infinity; 2000] 1 5000) 1 = Some out /\
    anomaly_masked 1 5000 infinity out.
Proof.
  exact (proj1 (@mask_z_values_anomalies 1 5000 eq_refl)
               [nan; infinity; 2000] 1%nat infinity eq_refl).
Defined.

Lemma mask_z_values_inverted_witness :
  nth_error (mask_z_values [0; 2000; 6000] 5000 1) 1 = Some nan.
Proof.
  exact (proj1 (proj2 (@mask_z_values_inverted 5000 1 eq_refl))
               [0; 2000; 6000] 1%nat 2000 eq_refl).
Defined.

End MaskContract.

(** ** Broadcasting arrays of one shape *)

Lemma mapM_pure {A B : Type} (g : A -> B) (l : list A) :
  mapM (fun a => Ok (g a)) l = Ok (map g l).
Proof.
  induction l as [|a l IH]; simpl; [reflexivity | now rewrite IH].
Qed.

Lemma mapM_ext {A B : Type} (f g : A -> result B) (l : list A) :
  (forall a, In a l -> f a = g a) -> mapM f l = mapM g l.
Proof.
  induction l as [|a l IH]; simpl; intros Hfg; [reflexivity|].
  rewrite (Hfg a) by now left. rewrite IH by (intros; apply Hfg; now right).
  reflexivity.
Qed.

Lemma map_combine_map2 {A B C : Type} (g : A -> B -> C) (a : list A) (b : list B) :
  map (fun p => g (fst p) (snd p)) (combine a b) = map2 g a b.
Proof.
  revert b. induction a as [|x a IH]; intros [|y b]; simpl; try reflexivity.
  now rewrite IH.
Qed.

Lemma broadcast_same_length {A B C : Type} (f : A -> B -> result C)
    (a : list A) (b : list B) :
  length a = length b ->
  broadcast f a b = mapM (fun p => f (fst p) (snd p)) (combine a b).
Proof.
  intros Hlen. unfold broadcast.
  destruct a as [|x [|x' a]], b as [|y [|y' b]]; try discriminate Hlen;
    try reflexivity.
  now rewrite Hlen, Nat.eqb_refl.
Qed.

Lemma broadcast_pure {A B C : Type} (g : A -> B -> C) (a : list A) (b : list B) :
  length a = length b ->
  broadcast (fun x y => Ok (g x y)) a b = Ok (map2 g a b).
Proof.
  intros Hlen. rewrite broadcast_same_length by assumption.
  now rewrite mapM_pure, map_combine_map2.
Qed.

Lemma broadcast2_pure {A B C : Type} (g : A -> B -> C)
    (a : list (list A)) (b : list (list B)) :
  shape2 a = shape2 b ->
  broadcast (broadcast (fun x y => Ok (g x y))) a b = Ok (map2 (map2 g) a b).
Proof.
  intros Hshape.
  assert (Hlen : length a = length b).
  { apply (f_equal (@length nat)) in Hshape. unfold shape2 in Hshape.
    now rewrite !length_map in Hshape. }
  rewrite broadcast_same_length by assumption.
  rewrite <- map_combine_map2, <- mapM_pure.
  apply mapM_ext. intros [r s] Hin. simpl.
  apply broadcast_pure.
  clear Hlen. revert b Hshape Hin.
  induction a as [|r' a IH]; intros [|s' b] Hshape Hin; simpl in *;
    try contradiction.
  injection Hshape as Hrow Hshape.
  destruct Hin as [Heq | Hin]; [congruence | eauto].
Qed.

Lemma nth_error_map2 {A B C : Type} (g : A -> B -> C)
    (a : list A) (b : list B) (i : nat) :
  nth_error (map2 g a b) i
  = match nth_error a i, nth_error b i with
    | Some x, Some y => Some (g x y)
    | _, _ => None
    end.
Proof.
  revert b i. induction a as [|x a IH]; intros [|y b] [|i]; simpl;
    try reflexivity.
  - now destruct (nth_error a i).
  - apply IH.
Qed.

Lemma entry2_map2 {A B C : Type} (g : A -> B -> C)
    (a : list (list A)) (b : list (list B)) (i j : nat) :
  entry2 (map2 (map2 g) a b) i j
  = match entry2 a i j, entry2 b i j with
    | Some x, Some y => Some (g x y)
    | _, _ => None
    end.
Proof.
  unfold entry2. rewrite nth_error_map2.
  destruct (nth_error a i) as [r|], (nth_error b i) as [s|]; try reflexivity.
  - apply nth_error_map2.
  - now destruct (nth_error r j).
Qed.

Lemma shape2_map2 {A B C : Type} (g : A -> B -> C)
    (a : list (list A)) (b : list (list B)) :
  shape2 a = shape2 b -> shape2 (map2 (map2 g) a b) = shape2 a.
Proof.
  revert b. induction a as [|r a IH]; intros [|s b] Hshape; simpl in *;
    try discriminate; [reflexivity|].
  injection Hshape as Hrow Hshape. f_equal; [|now apply IH].
  clear -Hrow. revert s Hrow.
  induction r as [|u r IH]; intros [|w s] Hrow; simpl in *; try discriminate;
    [reflexivity|]. f_equal. apply IH. now injection Hrow.
Qed.

(** ** [reynolds] entry by entry *)

Section ReynoldsEntries.

Local Open Scope float_scope.

Variables density viscosity : float.

(** Plain Python floats. *)
Lemma reynolds_python (x y : float) :
  reynolds x y density viscosity
  = if is_zero (60 * viscosity * math_pi * y)
    then Raise ZeroDivisionError
    else Ok (reynolds_number x y density viscosity).
Proof. reflexivity. Qed.

(** NumPy scalars. *)
Lemma reynolds_float64 (x y : float) :
  reynolds (F64 x) (F64 y) density viscosity
  = Ok (F64 (reynolds_number x y density viscosity)).
Proof. reflexivity. Qed.

(** A NumPy scalar and a Python [int], as for one sample of the
    cross-section. *)
Lemma reynolds_float64_int (x : float) (y : Z) :
  reynolds (F64 x) y density viscosity
  = Ok (F64 (reynolds_number x (float_of_int y) density viscosity)).
Proof. reflexivity. Qed.

(** A one-dimensional array and a Python [int]: the call of the
    cross-section. *)
Lemma reynolds_array1_int (x : list float) (y : Z) :
  reynolds x y density viscosity
  = Ok (map (fun xi => reynolds_number xi (float_of_int y) density viscosity) x).
Proof.
  unfold reynolds.
  cbv [truediv truediv_array1_float mul mul_float_array mul_int_float
       mul_float_float mul_float_int pi_const pi_float].
  now rewrite map_map.
Qed.

(** Two arrays of two dimensions and one shape: the call of the surface. *)
Lemma reynolds_array2 (X Y : list (list float)) :
  shape2 X = shape2 Y ->
  reynolds X Y density viscosity
  = Ok (map2 (map2 (fun xij yij => reynolds_number xij yij density viscosity)) X Y).
Proof.
  intros Hshape.
  unfold reynolds.
  cbv [truediv truediv_array2_array2 mul mul_float_array mul_int_float
       mul_float_float mul_float_int pi_const pi_float].
  rewrite broadcast2_pure by now rewrite !shape2_map.
  f_equal. clear Hshape. revert Y.
  induction X as [|r X IH]; intros [|s Y]; simpl; try reflexivity.
  rewrite IH. f_equal.
  clear. revert s. induction r as [|u r IH]; intros [|w s]; simpl; try reflexivity.
  now rewrite IH.
Qed.

End ReynoldsEntries.

(** ** Division by zero in binary64 *)

Section ZeroDivision.

Local Open Scope float_scope.

Lemma SFmul_null_r (p q : spec_float) :
  sf_null q = true -> sf_null (SF64mul p q) = true.
Proof. destruct q; try discriminate; destruct p; reflexivity. Qed.

Lemma SFmul_null_l (p q : spec_float) :
  sf_null p = true -> sf_null (SF64mul p q) = true.
Proof. destruct p; try discriminate; destruct q; reflexivity. Qed.

Lemma SFdiv_null (p q : spec_float) :
  sf_null q = true -> sf_unbounded (SF64div p q) = true.
Proof. destruct q; try discriminate; destruct p; reflexivity. Qed.

Lemma is_zero_null (a : float) : is_zero a = true -> sf_null (Prim2SF a) = true.
Proof.
  unfold is_zero. rewrite eqb_spec.
  change (Prim2SF zero) with (S754_zero false).
  destruct (Prim2SF a) as [s|s| |s m e]; try reflexivity; try discriminate;
    destruct s; discriminate.
Qed.

Lemma null_cases (a : float) :
  sf_null (Prim2SF a) = true -> is_zero a = true \/ a = nan.
Proof.
  intros Ha. destruct (Prim2SF a) as [s|s| |s m e] eqn:E; try discriminate.
  - left. unfold is_zero. rewrite eqb_spec, E. reflexivity.
  - right. apply Prim2SF_inj. now rewrite E.
Qed.

Lemma unbounded_not_finite (a : float) :
  sf_unbounded (Prim2SF a) = true -> is_finite a = false.
Proof.
  intros Ha. unfold is_finite, is_infinity, is_nan.
  rewrite !eqb_spec, abs_spec.
  change (Prim2SF infinity) with (S754_infinity false).
  destruct (Prim2SF a) as [s|s| |s m e]; try discriminate;
    [destruct s|]; reflexivity.
Qed.

Lemma div_nan_r (a : float) : a / nan = nan.
Proof.
  apply Prim2SF_inj. rewrite div_spec, Prim2SF_nan.
  now destruct (Prim2SF a).
Qed.

Variables density viscosity : float.

(** The denominator [60 * viscosity * math.pi * y] is a zero or NaN as
    soon as the diameter or the viscosity is a zero. *)
Lemma denominator_null (y : float) :
  is_zero y = true \/ is_zero viscosity = true ->
  sf_null (Prim2SF (60 * viscosity * math_pi * y)) = true.
Proof.
  intros [Hy | Hv]; rewrite mul_spec.
  - apply SFmul_null_r. now apply is_zero_null.
  - apply SFmul_null_l. rewrite mul_spec. apply SFmul_null_l.
    rewrite mul_spec. apply SFmul_null_r. now apply is_zero_null.
Qed.

Lemma reynolds_number_not_finite (x y : float) :
  is_zero y = true \/ is_zero viscosity = true ->
  is_finite (reynolds_number x y density viscosity) = false.
Proof.
  intros H0. apply unbounded_not_finite. unfold reynolds_number.
  rewrite div_spec. apply SFdiv_null. now apply denominator_null.
Qed.

Lemma reynolds_python_zero (x y : float) :
  is_zero y = true \/ is_zero viscosity = true ->
  reynolds x y density viscosity = Raise ZeroDivisionError \/
  reynolds x y density viscosity = Ok nan.
Proof.
  intros H0. rewrite reynolds_python.
  destruct (null_cases _ (denominator_null H0)) as [Hz | Hn].
  - left. now rewrite Hz.
  - right. unfold reynolds_number. rewrite Hn. now rewrite div_nan_r.
Qed.

End ZeroDivision.

(** ** The formula computed by [reynolds] *)

Section ReynoldsFormula.

Local Open Scope float_scope.

(** C1, the claim as written fails for plain Python floats: all four
    arguments are positive, the denominator underflows to zero, and the
    call raises instead of returning the value of the formula (which
    NumPy's division gives as infinity). *)
Lemma reynolds_positive_scalars_raise :
  (0 <? 1) = true /\ (0 <? 0x1p-600) = true /\
  (60 * 0x1p-600 * math_pi * 0x1p-600) = 0 /\
  reynolds 1 0x1p-600 1 0x1p-600 = Raise ZeroDivisionError /\
  reynolds_number 1 0x1p-600 1 0x1p-600 = infinity.
Proof. repeat split; reflexivity. Qed.

(** C1 (amended).  Whatever the signs of the arguments, [reynolds]
    returns the binary64 value of
    [(4 * density * flow_rate) / (60 * viscosity * pi * diameter)]:
    for plain Python floats when the computed denominator is not zero,
    for NumPy scalars always, entry by entry for a one-dimensional
    array of flow rates with a scalar diameter, and entry by entry for
    two arrays of one shape. *)
Theorem reynolds_formula (density viscosity : float) :
  (forall x y : float,
     is_zero (60 * viscosity * math_pi * y) = false ->
     reynolds x y density viscosity
     = Ok (reynolds_number x y density viscosity)) /\
  (forall x y : float,
     reynolds (F64 x) (F64 y) density viscosity
     = Ok (F64 (reynolds_number x y density viscosity))) /\
  (forall (x : list float) (y : Z),
     exists Z : list float,
       reynolds x y density viscosity = Ok Z /\
       length Z = length x /\
       forall i xi, nth_error x i = Some xi ->
         nth_error Z i
         = Some (reynolds_number xi (float_of_int y) density viscosity)) /\
  (forall X Y : list (list float),
     shape2 X = shape2 Y ->
     exists Z : list (list float),
       reynolds X Y density viscosity = Ok Z /\
       shape2 Z = shape2 X /\
       forall i j xij yij,
         entry2 X i j = Some xij -> entry2 Y i j = Some yij ->
         entry2 Z i j = Some (reynolds_number xij yij density viscosity)).
Proof.
  split; [|split; [|split]].
  - intros x y Hden. rewrite reynolds_python. now rewrite Hden.
  - intros x y. apply reynolds_float64.
  - intros x y. eexists. split; [apply reynolds_array1_int|].
    split; [apply length_map|].
    intros i xi Hxi. rewrite nth_error_map, Hxi. reflexivity.
  - intros X Y Hshape. eexists. split; [now apply reynolds_array2|].
    split; [now apply shape2_map2|].
    intros i j xij yij Hx Hy. rewrite entry2_map2, Hx, Hy. reflexivity.
Qed.

Lemma reynolds_formula_witness :
  reynolds 10 100 (density defaults) (viscosity defaults)
  = Ok 0x1.0512fbd74772bp+11.
Proof.
  exact (proj1 (reynolds_formula (density defaults) (viscosity defaults))
               10 100 eq_refl).
Defined.

End ReynoldsFormula.

(** ** A zero diameter or viscosity *)

Section ZeroDivisionClaim.

Local Open Scope float_scope.

(** C3, the claim as written fails for scalar inputs: with plain
    Python numbers a zero diameter, or a zero viscosity, makes the call
    raise [ZeroDivisionError]. *)
Lemma reynolds_scalars_zero_raise :
  reynolds 10 0 (density defaults) (viscosity defaults)
  = Raise ZeroDivisionError /\
  reynolds 10 100 (density defaults) 0 = Raise ZeroDivisionError.
Proof. split; reflexivity. Qed.

(** C3 (amended).  With a diameter or a viscosity equal to zero,
    [reynolds] returns an infinity or NaN without raising whenever
    NumPy performs the division: for NumPy scalars, for an array of
    flow rates with a scalar diameter, and for two arrays of one shape
    at every entry whose diameter is zero (at every entry when the
    viscosity is zero).  For plain Python floats the call raises
    [ZeroDivisionError], or returns NaN when the denominator is NaN. *)
Theorem reynolds_zero_division (density viscosity : float) :
  (forall x y : float,
     is_zero y = true \/ is_zero viscosity = true ->
     exists r, reynolds (F64 x) (F64 y) density viscosity = Ok (F64 r) /\
               is_finite r = false) /\
  (forall (x : list float) (y : Z),
     is_zero (float_of_int y) = true \/ is_zero viscosity = true ->
     exists Z : list float,
       reynolds x y density viscosity = Ok Z /\ length Z = length x /\
       forall i r, nth_error Z i = Some r -> is_finite r = false) /\
  (forall X Y : list (list float),
     shape2 X = shape2 Y ->
     exists Z : list (list float),
       reynolds X Y density viscosity = Ok Z /\ shape2 Z = shape2 X /\
       forall i j yij r,
         entry2 Y i j = Some yij -> entry2 Z i j = Some r ->
         is_zero yij = true \/ is_zero viscosity = true ->
         is_finite r = false) /\
  (forall x y : float,
     is_zero y = true \/ is_zero viscosity = true ->
     reynolds x y density viscosity = Raise ZeroDivisionError \/
     reynolds x y density viscosity = Ok nan).
Proof.
  split; [|split; [|split]].
  - intros x y H0. eexists. split; [apply reynolds_float64|].
    now apply reynolds_number_not_finite.
  - intros x y H0. eexists. split; [apply reynolds_array1_int|].
    split; [apply length_map|].
    intros i r. rewrite nth_error_map.
    destruct (nth_error x i); [|discriminate]. intros [= <-].
    now apply reynolds_number_not_finite.
  - intros X Y Hshape. eexists. split; [now apply reynolds_array2|].
    split; [now apply shape2_map2|].
    intros i j yij r Hy. rewrite entry2_map2, Hy.
    destruct (entry2 X i j); [|discriminate]. intros [= <-] H0.
    now apply reynolds_number_not_finite.
  - intros x y H0. now apply reynolds_python_zero.
Qed.

Lemma reynolds_zero_division_witness :
  exists r, reynolds (F64 10) (F64 0) (density defaults) (viscosity defaults)
            = Ok (F64 r) /\ is_finite r = false.
Proof.
  apply (proj1 (reynolds_zero_division (density defaults) (viscosity defaults))).
  left. reflexivity.
Defined.

End ZeroDivisionClaim.

(** ** Rounding in binary64

    Every product and quotient of the formula is rounded.  The lemmas
    below bound the error of one rounding, as [SpecFloat] defines it,
    by one unit in the last place of the result. *)

Section Rounding.

Local Open Scope Z_scope.

(** Shifting the mantissa right by one place halves it, rounding down. *)
Lemma shr_1_m (mrs : shr_record) :
  0 <= shr_m mrs -> shr_m (shr_1 mrs) = shr_m mrs / 2 /\ 0 <= shr_m (shr_1 mrs).
Proof.
  destruct mrs as [m r s]. cbn [shr_m]. intros Hm.
  destruct m as [|[p|p|]|p]; cbn [shr_1 shr_m]; try lia;
    (split; [|lia]);
    first [ reflexivity
          | rewrite Pos2Z.inj_xI; apply Z.div_unique with (r:=1); lia
          | rewrite Pos2Z.inj_xO; apply Z.div_unique with (r:=0); lia ].
Qed.

Lemma pow2_xI (p : positive) : 2 ^ Zpos p~1 = 2 * 2 ^ Zpos p * 2 ^ Zpos p.
Proof.
  replace (Zpos p~1) with (Zpos p + Zpos p + 1) by lia.
  rewrite !Z.pow_add_r by lia. change (2 ^ 1) with 2. ring.
Qed.

Lemma pow2_xO (p : positive) : 2 ^ Zpos p~0 = 2 ^ Zpos p * 2 ^ Zpos p.
Proof.
  replace (Zpos p~0) with (Zpos p + Zpos p) by lia.
  rewrite !Z.pow_add_r by lia. ring.
Qed.

Lemma iter_shr_1_m (p : positive) (mrs : shr_record) :
  0 <= shr_m mrs ->
  shr_m (SpecFloat.iter_pos shr_1 p mrs) = shr_m mrs / 2 ^ Zpos p /\
  0 <= shr_m (SpecFloat.iter_pos shr_1 p mrs).
Proof.
  revert mrs. induction p as [p IH|p IH|]; intros mrs Hm; cbn [SpecFloat.iter_pos].
  - destruct (@shr_1_m mrs Hm) as [E1 H1].
    destruct (IH _ H1) as [E2 H2]. destruct (IH _ H2) as [E3 H3].
    split; [|exact H3]. rewrite E3, E2, E1.
    assert (0 < 2 ^ Zpos p) by (apply Z.pow_pos_nonneg; lia).
    rewrite !Z.div_div by nia. rewrite pow2_xI. f_equal. ring.
  - destruct (IH _ Hm) as [E2 H2]. destruct (IH _ H2) as [E3 H3].
    split; [|exact H3]. rewrite E3, E2.
    assert (0 < 2 ^ Zpos p) by (apply Z.pow_pos_nonneg; lia).
    rewrite !Z.div_div by nia. rewrite pow2_xO. f_equal.
  - destruct (@shr_1_m mrs Hm) as [E1 H1]. split; [|exact H1].
    rewrite E1. reflexivity.
Qed.

(** A shift by [n] places divides the mantissa by a power of two and
    raises the exponent by as much. *)
Lemma shr_floor (mrs mrs' : shr_record) (e n e' : Z) :
  0 <= shr_m mrs -> shr mrs e n = (mrs', e') ->
  exists k, 0 <= k /\ e' = e + k /\ shr_m mrs' = shr_m mrs / 2 ^ k.
Proof.
  intros Hm. unfold shr. destruct n as [|p|p]; intros [= <- <-].
  - exists 0. rewrite Z.div_1_r. lia.
  - exists (Zpos p). split; [lia|]. split; [reflexivity|].
    apply (@iter_shr_1_m p mrs Hm).
  - exists 0. rewrite Z.div_1_r. lia.
Qed.

Lemma shr_fexp_floor (m e : Z) (l : location) (mrs' : shr_record) (e' : Z) :
  0 <= m -> shr_fexp prec emax m e l = (mrs', e') ->
  exists k, 0 <= k /\ e' = e + k /\ shr_m mrs' = m / 2 ^ k.
Proof.
  intros Hm. unfold shr_fexp. intros Hs.
  assert (E : shr_m (shr_record_of_loc m l) = m)
    by (destruct l as [|[ | | ]]; reflexivity).
  rewrite <- E in Hm.
  destruct (@shr_floor _ _ _ _ _ Hm Hs) as (k & Hk & He & Hk').
  exists k. rewrite E in Hk'. auto.
Qed.

(** Rounding to nearest keeps the truncated mantissa or takes the next. *)
Lemma round_nearest_even_cases (m : Z) (l : location) :
  m <= round_nearest_even m l <= m + 1.
Proof.
  destruct l as [|[ | | ]]; cbn [round_nearest_even]; try lia.
  destruct (Z.even m); lia.
Qed.

(** The bracket left by one rounding: the result is within one unit
    of its last place of the number rounded. *)
Lemma round_bracket (s s' : bool) (m e : Z) (l : location) (mf : positive) (ef : Z) :
  0 <= m ->
  binary_round_aux prec emax s m e l = S754_finite s' mf ef ->
  s' = s /\
  exists k, 0 <= k /\ ef = e + k /\
    Zpos mf * 2 ^ k <= m + 2 ^ k /\ m + 1 <= (Zpos mf + 1) * 2 ^ k.
Proof.
  intros Hm. unfold binary_round_aux.
  destruct (shr_fexp prec emax m e l) as [mrs1 e1] eqn:E1.
  destruct (shr_fexp prec emax _ e1 loc_Exact) as [mrs2 e2] eqn:E2.
  destruct (@shr_fexp_floor _ _ _ _ _ Hm E1) as (k1 & Hk1 & -> & Hm1).
  pose proof (round_nearest_even_cases (shr_m mrs1) (loc_of_shr_record mrs1)) as Hr.
  assert (H2k1 : 0 < 2 ^ k1) by (apply Z.pow_pos_nonneg; lia).
  assert (Hm1' : 0 <= shr_m mrs1) by (rewrite Hm1; apply Z.div_pos; lia).
  assert (Hm2' : 0 <= round_nearest_even (shr_m mrs1) (loc_of_shr_record mrs1))
    by lia.
  destruct (@shr_fexp_floor _ _ _ _ _ Hm2' E2) as (k2 & Hk2 & -> & Hm2).
  assert (H2k2 : 0 < 2 ^ k2) by (apply Z.pow_pos_nonneg; lia).
  destruct (shr_m mrs2) as [|p|p] eqn:E3; try discriminate.
  destruct (Z.leb _ _); [|discriminate]. intros [= -> -> <-].
  split; [reflexivity|]. exists (k1 + k2). split; [lia|]. split; [lia|].
  rewrite Z.pow_add_r by lia.
  set (A := 2 ^ k1) in *. set (B := 2 ^ k2) in *.
  set (m1 := shr_m mrs1) in *. set (m2 := round_nearest_even m1 _) in *.
  pose proof (Z.mul_div_le m A H2k1) as Ha1.
  pose proof (Z.mul_succ_div_gt m A H2k1) as Ha2.
  pose proof (Z.mul_div_le m2 B H2k2) as Hb1.
  pose proof (Z.mul_succ_div_gt m2 B H2k2) as Hb2.
  rewrite <- Hm1 in Ha1, Ha2. rewrite <- Hm2 in Hb1, Hb2.
  split; nia.
Qed.

End Rounding.

Section RoundingError.

Local Open Scope R_scope.

Lemma sgn_xorb (a b : bool) : sgn (xorb a b) = sgn a * sgn b.
Proof. destruct a, b; unfold sgn; simpl; lra. Qed.

Lemma sgn_inv (a : bool) : / sgn a = sgn a.
Proof.
  destruct a; unfold sgn; lra.
Qed.

Lemma Rabs_sgn (s : bool) (t : R) : Rabs (sgn s * t) = Rabs t.
Proof.
  destruct s; unfold sgn.
  - replace (-1 * t) with (- t) by ring. apply Rabs_Ropp.
  - now rewrite Rmult_1_l.
Qed.

Lemma bpow_pos (e : Z) : 0 < powerRZ 2 e.
Proof. apply powerRZ_lt. lra. Qed.

Lemma bpow_nat (k : Z) : (0 <= k)%Z -> powerRZ 2 k = IZR (2 ^ k).
Proof.
  intros Hk. destruct k as [|p|p]; [reflexivity| |lia].
  symmetry. apply (Zpower_pos_powerRZ 2 p).
Qed.

Lemma bpow_add (a b : Z) : powerRZ 2 (a + b) = powerRZ 2 a * powerRZ 2 b.
Proof. apply powerRZ_add. lra. Qed.

(** The bracket read over the real numbers. *)
Lemma bracket_real (mf m k : Z) (X : R) :
  (0 <= k)%Z ->
  (mf * 2 ^ k <= m + 2 ^ k)%Z -> (m + 1 <= (mf + 1) * 2 ^ k)%Z ->
  IZR m <= X < IZR m + 1 ->
  Rabs (IZR mf * IZR (2 ^ k) - X) <= IZR (2 ^ k).
Proof.
  intros Hk H1 H2 HX.
  apply IZR_le in H1, H2.
  rewrite plus_IZR, mult_IZR in H1. rewrite !plus_IZR, mult_IZR, plus_IZR in H2.
  apply Rabs_le. lra.
Qed.

Lemma Rabs_scaled (t b c : R) : 0 < b -> Rabs t <= c -> Rabs (t * b) <= c * b.
Proof.
  intros Hb Ht. rewrite Rabs_mult, (Rabs_pos_eq b) by lra.
  apply Rmult_le_compat_r; lra.
Qed.

(** A finite product is within one unit of its last place of the
    product of the two values. *)
Lemma SFmul_abs_error (x y : spec_float) (s : bool) (mf : positive) (ef : Z) :
  SF64mul x y = S754_finite s mf ef ->
  Rabs (SF2R (S754_finite s mf ef) - SF2R x * SF2R y) <= powerRZ 2 ef.
Proof.
  destruct x as [sx|sx| |sx mx ex], y as [sy|sy| |sy my ey]; try discriminate.
  unfold SF64mul, SFmul. intros H.
  apply round_bracket in H; [|lia].
  destruct H as (-> & k & Hk & -> & H1 & H2).
  cbn [SF2R]. rewrite sgn_xorb, !bpow_add, (@bpow_nat k Hk).
  replace (sgn sx * sgn sy * IZR (Z.pos mf) *
           (powerRZ 2 ex * powerRZ 2 ey * IZR (2 ^ k)) -
           sgn sx * IZR (Z.pos mx) * powerRZ 2 ex *
           (sgn sy * IZR (Z.pos my) * powerRZ 2 ey))
    with (sgn sx * (sgn sy *
            ((IZR (Z.pos mf) * IZR (2 ^ k) - IZR (Z.pos (mx * my)))
             * (powerRZ 2 ex * powerRZ 2 ey))))
    by (rewrite Pos2Z.inj_mul, mult_IZR; ring).
  rewrite !Rabs_sgn.
  rewrite (Rmult_comm (powerRZ 2 ex * powerRZ 2 ey)).
  apply Rabs_scaled.
  - pose proof (bpow_pos ex). pose proof (bpow_pos ey). nra.
  - apply (@bracket_real _ _ _ _ Hk H1 H2). lra.
Qed.

(** The division of the mantissas: the dividend is shifted left and
    divided, rounding down. *)
Lemma div_core (mx my : positive) (ex ey mz ez : Z) (lz : location) :
  SFdiv_core_binary prec emax (Z.pos mx) ex (Z.pos my) ey = (mz, ez, lz) ->
  exists s, (0 <= s)%Z /\ (ex - ey = ez + s)%Z /\
            mz = (Z.pos mx * 2 ^ s / Z.pos my)%Z.
Proof.
  unfold SFdiv_core_binary.
  set (e' := Z.min _ _).
  assert (He' : (e' <= ex - ey)%Z) by apply Z.le_min_r.
  set (m' := match (ex - ey - e')%Z with Z0 => _ | Zpos _ => _ | Zneg _ => _ end).
  assert (Hm' : m' = (Z.pos mx * 2 ^ (ex - ey - e'))%Z).
  { subst m'. destruct (ex - ey - e')%Z as [|p|p] eqn:E; [lia| |lia].
    rewrite Z.shiftl_mul_pow2 by lia. reflexivity. }
  destruct (Z.div_eucl m' (Z.pos my)) as [q r] eqn:E.
  intros [= <- <- _]. exists (ex - ey - e')%Z.
  split; [lia|]. split; [lia|].
  rewrite <- Hm'. unfold Z.div. now rewrite E.
Qed.

(** A finite quotient is within one unit of its last place of the
    quotient of the two values. *)
Lemma SFdiv_abs_error (x y : spec_float) (s : bool) (mf : positive) (ef : Z) :
  SF64div x y = S754_finite s mf ef ->
  Rabs (SF2R (S754_finite s mf ef) - SF2R x / SF2R y) <= powerRZ 2 ef.
Proof.
  destruct x as [sx|sx| |sx mx ex], y as [sy|sy| |sy my ey]; try discriminate.
  unfold SF64div, SFdiv.
  destruct (SFdiv_core_binary prec emax (Z.pos mx) ex (Z.pos my) ey)
    as [[mz ez] lz] eqn:E.
  destruct (@div_core _ _ _ _ _ _ _ E) as (t & Ht & Hex & Hmz).
  assert (H2t : (0 < 2 ^ t)%Z) by (apply Z.pow_pos_nonneg; lia).
  assert (Hmz0 : (0 <= mz)%Z) by (rewrite Hmz; apply Z.div_pos; lia).
  intros H. apply round_bracket in H; [|exact Hmz0].
  destruct H as (-> & k & Hk & -> & H1 & H2).
  set (X := IZR (Z.pos mx) * IZR (2 ^ t) / IZR (Z.pos my)).
  assert (Hmy : 0 < IZR (Z.pos my)) by (apply IZR_lt; lia).
  assert (HX : IZR mz <= X < IZR mz + 1).
  { pose proof (Z.mul_div_le (Z.pos mx * 2 ^ t) (Z.pos my) ltac:(lia)) as Ha.
    pose proof (Z.mul_succ_div_gt (Z.pos mx * 2 ^ t) (Z.pos my) ltac:(lia)) as Hb.
    rewrite <- Hmz in Ha, Hb.
    apply IZR_le in Ha. apply IZR_lt in Hb.
    rewrite !mult_IZR in Ha. rewrite !mult_IZR, succ_IZR in Hb.
    unfold X. split.
    - apply Rmult_le_reg_r with (IZR (Z.pos my)); [exact Hmy|].
      unfold Rdiv. rewrite Rmult_assoc, Rinv_l by lra. lra.
    - apply Rmult_lt_reg_r with (IZR (Z.pos my)); [exact Hmy|].
      unfold Rdiv. rewrite Rmult_assoc, Rinv_l by lra. lra. }
  cbn [SF2R].
  replace ex with (ez + t + ey)%Z by lia.
  rewrite sgn_xorb, !bpow_add, (@bpow_nat k Hk), (@bpow_nat t Ht).
  pose proof (bpow_pos ey) as Hey. pose proof (bpow_pos ez) as Hez.
  replace (sgn sx * sgn sy * IZR (Z.pos mf) * (powerRZ 2 ez * IZR (2 ^ k)) -
           sgn sx * IZR (Z.pos mx) * (powerRZ 2 ez * IZR (2 ^ t) * powerRZ 2 ey) /
           (sgn sy * IZR (Z.pos my) * powerRZ 2 ey))
    with (sgn sx * (sgn sy * ((IZR (Z.pos mf) * IZR (2 ^ k) - X) * powerRZ 2 ez))).
  - rewrite !Rabs_sgn. rewrite (Rmult_comm (powerRZ 2 ez)).
    apply Rabs_scaled; [exact Hez|].
    apply (@bracket_real _ _ _ _ Hk H1 H2 HX).
  - unfold X, Rdiv. rewrite !Rinv_mult, sgn_inv. field. lra.
Qed.

Lemma epsilon64_val : epsilon64 = / 4503599627370496.
Proof. reflexivity. Qed.

Lemma epsilon64_bounds : 0 < epsilon64 < 1 / 1000.
Proof. rewrite epsilon64_val. lra. Qed.

Lemma shrink_pos (n : nat) : 0 < (1 - epsilon64) ^ n <= 1.
Proof.
  pose proof epsilon64_bounds as Hu. split.
  - apply pow_lt. lra.
  - apply Rle_trans with (1 ^ n); [apply pow_incr; split; lra|].
    rewrite pow1. lra.
Qed.

(** [near] is closed under products, quotients, symmetry and
    composition; the roundings add up. *)
Lemma near_refl (a : R) : near 0 a a.
Proof. exists 1. simpl. lra. Qed.

Lemma near_eq (n : nat) (a a' b b' : R) :
  a = a' -> b = b' -> near n a' b' -> near n a b.
Proof. now intros -> ->. Qed.

Lemma inv_bounds (q rho : R) :
  0 < q -> q <= rho -> rho * q <= 1 -> q <= / rho /\ / rho * q <= 1.
Proof.
  intros Hq H1 H2.
  assert (Hrho : 0 < rho) by lra.
  pose proof (Rinv_0_lt_compat _ Hrho) as Hi.
  assert (Hri : / rho * rho = 1) by (apply Rinv_l; lra).
  split.
  - replace q with (/ rho * (rho * q)) by (rewrite <- Rmult_assoc, Hri; ring).
    rewrite <- (Rmult_1_r (/ rho)) at 2.
    apply Rmult_le_compat_l; lra.
  - rewrite <- Hri. apply Rmult_le_compat_l; lra.
Qed.

Lemma near_inv (n : nat) (a b : R) : near n a b -> near n (/ a) (/ b).
Proof.
  intros (rho & -> & H1 & H2).
  pose proof (shrink_pos n) as [Hq _].
  exists (/ rho). split; [apply Rinv_mult|]. now apply inv_bounds.
Qed.

Lemma near_mul (n m : nat) (a b c d : R) :
  near n a b -> near m c d -> near (n + m) (a * c) (b * d).
Proof.
  intros (ra & -> & Ha1 & Ha2) (rc & -> & Hc1 & Hc2).
  pose proof (shrink_pos n) as [Hn _]. pose proof (shrink_pos m) as [Hm _].
  unfold near. rewrite pow_add.
  set (qn := (1 - epsilon64) ^ n) in *. set (qm := (1 - epsilon64) ^ m) in *.
  exists (ra * rc). split; [ring|]. split.
  - apply Rmult_le_compat; lra.
  - replace (ra * rc * (qn * qm)) with ((ra * qn) * (rc * qm)) by ring.
    rewrite <- (Rmult_1_l 1). apply Rmult_le_compat; nra.
Qed.

Lemma near_div (n m : nat) (a b c d : R) :
  near n a b -> near m c d -> near (n + m) (a / c) (b / d).
Proof. intros Ha Hc. apply near_mul; [exact Ha | now apply near_inv]. Qed.

Lemma near_sym (n : nat) (a b : R) : near n a b -> near n b a.
Proof.
  intros (rho & -> & H1 & H2).
  pose proof (shrink_pos n) as [Hq _].
  assert (Hri : / rho * rho = 1) by (apply Rinv_l; lra).
  exists (/ rho). split; [rewrite <- Rmult_assoc, Hri; ring|].
  now apply inv_bounds.
Qed.

Lemma near_trans (n m : nat) (a b c : R) :
  near n a b -> near m b c -> near (n + m) a c.
Proof.
  intros Hab Hbc.
  apply near_eq with (a' := a * 1) (b' := 1 * c); [ring | ring |].
  destruct Hab as (ra & -> & Ha1 & Ha2). destruct Hbc as (rc & -> & Hc1 & Hc2).
  pose proof (shrink_pos n) as [Hn _]. pose proof (shrink_pos m) as [Hm _].
  unfold near. rewrite pow_add.
  set (qn := (1 - epsilon64) ^ n) in *. set (qm := (1 - epsilon64) ^ m) in *.
  exists (ra * rc). split; [ring|]. split.
  - apply Rmult_le_compat; lra.
  - replace (ra * rc * (qn * qm)) with ((ra * qn) * (rc * qm)) by ring.
    rewrite <- (Rmult_1_l 1). apply Rmult_le_compat; nra.
Qed.

Lemma bernoulli (n : nat) : 1 - INR n * epsilon64 <= (1 - epsilon64) ^ n.
Proof.
  pose proof epsilon64_bounds as Hu.
  induction n as [|n IH]; [simpl; lra|].
  rewrite S_INR. cbn [pow].
  pose proof (shrink_pos n) as [Hq Hq1]. pose proof (pos_INR n). nra.
Qed.

(** Up to ten roundings stay within a relative error of [2^-48]. *)
Lemma near_bound (n : nat) (a b : R) :
  (n <= 10)%nat -> near n a b -> Rabs (a - b) <= / IZR (2 ^ 48) * Rabs b.
Proof.
  intros Hn (rho & -> & H1 & H2).
  pose proof (bernoulli n) as Hb. pose proof (shrink_pos n) as [Hq Hq1].
  apply le_INR in Hn.
  assert (H10 : INR 10 = 10) by (simpl; lra). rewrite H10 in Hn.
  pose proof (pos_INR n) as Hn0.
  set (q := (1 - epsilon64) ^ n) in *.
  rewrite epsilon64_val in Hb.
  change (IZR (2 ^ 48)) with 281474976710656.
  assert (Hq' : 1 - 10 / 4503599627370496 <= q) by nra.
  assert (Hr : Rabs (rho - 1) <= / 281474976710656).
  { apply Rabs_le. split; [lra|]. nra. }
  replace (rho * b - b) with ((rho - 1) * b) by ring.
  rewrite Rabs_mult. apply Rmult_le_compat_r; [apply Rabs_pos | exact Hr].
Qed.

Lemma Rabs_between (a b : R) : Rabs a <= b -> - b <= a <= b.
Proof.
  intros H. pose proof (Rle_abs a) as H1. pose proof (Rle_abs (- a)) as H2.
  rewrite Rabs_Ropp in H2. lra.
Qed.

(** One unit in the last place of a normal number is at most
    [epsilon64] times the number. *)
Lemma rel_of_abs (s : bool) (mf : positive) (ef : Z) (X : R) :
  (2 ^ 52 <= Z.pos mf)%Z ->
  Rabs (SF2R (S754_finite s mf ef) - X) <= powerRZ 2 ef ->
  near 1 X (SF2R (S754_finite s mf ef)).
Proof.
  intros Hm Hx. cbn [SF2R] in *.
  pose proof (bpow_pos ef) as Hb. set (b := powerRZ 2 ef) in *.
  apply IZR_le in Hm. set (M := IZR (Z.pos mf)) in *.
  change (IZR (2 ^ 52)) with 4503599627370496 in Hm.
  assert (HM : 0 < M) by lra.
  pose proof (Rinv_0_lt_compat _ HM) as HiM.
  pose proof (Rinv_0_lt_compat _ Hb) as Hib.
  assert (HMi : M * / M = 1) by (apply Rinv_r; lra).
  assert (Hbi : b * / b = 1) by (apply Rinv_r; lra).
  assert (Hs : sgn s * sgn s = 1) by (destruct s; unfold sgn; lra).
  set (t := sgn s * (/ M * / b)).
  assert (Ht : sgn s * M * b * t = 1).
  { unfold t.
    replace (sgn s * M * b * (sgn s * (/ M * / b)))
      with ((sgn s * sgn s) * (M * / M) * (b * / b)) by ring.
    rewrite Hs, HMi, Hbi. ring. }
  assert (Hd : Rabs (X * t - 1) <= / M).
  { replace (X * t - 1) with (- ((sgn s * M * b - X) * t)) by (rewrite <- Ht; ring).
    rewrite Rabs_Ropp, Rabs_mult. unfold t at 1.
    rewrite Rabs_sgn, (Rabs_pos_eq (/ M * / b)) by nra.
    replace (/ M) with (b * (/ M * / b)) at 2
      by (replace (b * (/ M * / b)) with (/ M * (b * / b)) by ring; rewrite Hbi; ring).
    apply Rmult_le_compat_r; [nra | exact Hx]. }
  assert (HMu : / M <= epsilon64).
  { rewrite epsilon64_val. apply Rinv_le_contravar; lra. }
  pose proof epsilon64_bounds as Hu.
  apply Rabs_between in Hd.
  exists (X * t). rewrite pow_1. split.
  - rewrite Rmult_assoc, (Rmult_comm t), Ht. ring.
  - split; nra.
Qed.

(** One rounding for a normal product, one for a normal quotient. *)
Lemma mul_near (a b : float) :
  normal (a * b) = true -> near 1 (value a * value b) (value (a * b)).
Proof.
  unfold normal, value. rewrite mul_spec.
  destruct (SF64mul (Prim2SF a) (Prim2SF b)) as [| | |s m e] eqn:E;
    try discriminate.
  intros Hm%Z.leb_le. apply rel_of_abs; [exact Hm|].
  apply SFmul_abs_error. exact E.
Qed.

Lemma div_near (a b : float) :
  normal (a / b) = true -> near 1 (value a / value b) (value (a / b)).
Proof.
  unfold normal, value. rewrite div_spec.
  destruct (SF64div (Prim2SF a) (Prim2SF b)) as [| | |s m e] eqn:E;
    try discriminate.
  intros Hm%Z.leb_le. apply rel_of_abs; [exact Hm|].
  apply SFdiv_abs_error. exact E.
Qed.

(** A normal quotient has a divisor that is not zero. *)
Lemma div_normal_divisor (a b : float) :
  normal (a / b) = true -> is_zero b = false.
Proof.
  unfold normal, is_zero. rewrite div_spec, eqb_spec.
  destruct (Prim2SF a) as [sa|sa| |sa ma ea], (Prim2SF b) as [sb|sb| |sb mb eb];
    try discriminate; intros _; destruct sb; reflexivity.
Qed.

Lemma step_leaf (a : float) : near 0 (value a) (value a).
Proof. apply near_refl. Qed.

Lemma step_mul (n m : nat) (x y : R) (a b : float) :
  near n x (value a) -> near m y (value b) -> normal (a * b) = true ->
  near (S (n + m)) (x * y) (value (a * b)).
Proof.
  intros Ha Hb Hn. replace (S (n + m)) with (n + m + 1)%nat by lia.
  apply near_trans with (value a * value b).
  - now apply near_mul.
  - now apply mul_near.
Qed.

Lemma step_div (n m : nat) (x y : R) (a b : float) :
  near n x (value a) -> near m y (value b) -> normal (a / b) = true ->
  near (S (n + m)) (x / y) (value (a / b)).
Proof.
  intros Ha Hb Hn. replace (S (n + m)) with (n + m + 1)%nat by lia.
  apply near_trans with (value a / value b).
  - now apply near_div.
  - now apply div_near.
Qed.

Lemma near_close (n m : nat) (s t : R) (a b : float) :
  near n s (value a) -> near m t (value b) -> s = t -> (n + m <= 10)%nat ->
  rel_close a b.
Proof.
  intros Ha Hb <- Hn. apply near_bound with (n := (n + m)%nat); [exact Hn|].
  apply near_trans with s; [now apply near_sym | exact Hb].
Qed.

End RoundingError.

(** Following a binary64 expression operation by operation: every
    product and quotient known to be normal adds one rounding. *)
Ltac approx :=
  lazymatch goal with
  | |- near _ _ (value (PrimFloat.mul _ _)) =>
      first [ eapply step_mul; [approx | approx | eassumption]
            | apply step_leaf ]
  | |- near _ _ (value (PrimFloat.div _ _)) =>
      first [ eapply step_div; [approx | approx | eassumption]
            | apply step_leaf ]
  | |- _ => apply step_leaf
  end.

Ltac normals H :=
  cbn [forallb] in H; rewrite !andb_true_iff in H;
  repeat match type of H with _ /\ _ => let H' := fresh "Hn" in destruct H as [H' H] end.

(** ** Scaling the arguments *)

Section Scaling.

Local Open Scope float_scope.

(** C6, the claim as written fails in binary64, where every product
    and quotient is rounded: tripling the flow rate, the density or the
    viscosity at a flow rate of 7 and a diameter of 250, or the
    diameter at a flow rate of 10 and a diameter of 100, misses the
    scaled result by one unit in the last place. *)
Lemma reynolds_scaling_rounds :
  let rho := density defaults in
  let mu := viscosity defaults in
  (reynolds 7 250 rho mu = Ok 0x1.24672e8ab66bfp+9 /\
   reynolds (3 * 7) 250 rho mu = Ok 0x1.b69ac5d011a1fp+10 /\
   reynolds 7 250 (3 * rho) mu = Ok 0x1.b69ac5d011a1fp+10 /\
   3 * 0x1.24672e8ab66bfp+9 = 0x1.b69ac5d011a1ep+10 /\
   reynolds 7 250 rho (3 * mu) = Ok 0x1.85dee8b8f33abp+7 /\
   0x1.24672e8ab66bfp+9 / 3 = 0x1.85dee8b8f33a9p+7 /\
   reynolds 10 100 rho mu = Ok 0x1.0512fbd74772bp+11 /\
   reynolds 10 (3 * 100) rho mu = Ok 0x1.5c194fc9b498ep+9 /\
   0x1.0512fbd74772bp+11 / 3 = 0x1.5c194fc9b498fp+9 /\
   (0x1.b69ac5d011a1fp+10 =? 0x1.b69ac5d011a1ep+10) = false /\
   (0x1.85dee8b8f33abp+7 =? 0x1.85dee8b8f33a9p+7) = false /\
   (0x1.5c194fc9b498ep+9 =? 0x1.5c194fc9b498fp+9) = false).
Proof. cbv zeta. repeat split; reflexivity. Qed.

Local Ltac scaling :=
  unfold reynolds_number in *;
  eapply near_close;
  [ approx | approx | unfold Rdiv; rewrite ?Rinv_mult; ring | simpl; lia ].

Local Ltac returns :=
  rewrite reynolds_python;
  match goal with
  | Hr : normal (reynolds_number ?x ?y ?d ?v) = true |- _ =>
      rewrite (@div_normal_divisor _ _ Hr); reflexivity
  end.

Local Ltac scaling_part H :=
  intros H; normals H;
  split; [returns|]; split; [returns|];
  split; [reflexivity|]; split; [reflexivity|]; scaling.

(** C6 (amended).  In binary64 [reynolds] is linear in the flow rate and
    in the density, and inversely proportional to the diameter and to
    the viscosity, up to rounding: as long as every product and
    quotient computed on the way, on both sides, is a normal number
    (no overflow, no underflow, no nan), the call returns for Python
    floats as for NumPy scalars, and the result for the scaled argument
    and the scaled result agree up to a relative error of [2^-48]. *)
Theorem reynolds_scaling_tolerance (k x y d v : float) :
  let r := reynolds_number x y d v in
  (let r' := reynolds_number (k * x) y d v in
   forallb normal [k * x; 4 * d * (k * x); r'; 4 * d * x; r; k * r] = true ->
   reynolds x y d v = Ok r /\
   reynolds (k * x) y d v = Ok r' /\
   reynolds (F64 x) (F64 y) d v = Ok (F64 r) /\
   reynolds (k * F64 x)%py (F64 y) d v = Ok (F64 r') /\
   rel_close r' (k * r)) /\
  (let r' := reynolds_number x y (k * d) v in
   forallb normal [k * d; 4 * (k * d); 4 * (k * d) * x; r';
                   4 * d; 4 * d * x; r; k * r] = true ->
   reynolds x y d v = Ok r /\
   reynolds x y (k * d) v = Ok r' /\
   reynolds (F64 x) (F64 y) d v = Ok (F64 r) /\
   reynolds (F64 x) (F64 y) (k * d) v = Ok (F64 r') /\
   rel_close r' (k * r)) /\
  (let r' := reynolds_number x (k * y) d v in
   forallb normal [k * y; 60 * v * math_pi * (k * y); r';
                   60 * v * math_pi * y; r; r / k] = true ->
   reynolds x y d v = Ok r /\
   reynolds x (k * y) d v = Ok r' /\
   reynolds (F64 x) (F64 y) d v = Ok (F64 r) /\
   reynolds (F64 x) (k * F64 y)%py d v = Ok (F64 r') /\
   rel_close r' (r / k)) /\
  (let r' := reynolds_number x y d (k * v) in
   forallb normal [k * v; 60 * (k * v); 60 * (k * v) * math_pi;
                   60 * (k * v) * math_pi * y; r';
                   60 * v; 60 * v * math_pi; 60 * v * math_pi * y;
                   r; r / k] = true ->
   reynolds x y d v = Ok r /\
   reynolds x y d (k * v) = Ok r' /\
   reynolds (F64 x) (F64 y) d v = Ok (F64 r) /\
   reynolds (F64 x) (F64 y) d (k * v) = Ok (F64 r') /\
   rel_close r' (r / k)).
Proof.
  cbv zeta. split; [|split; [|split]].
  - scaling_part H.
  - scaling_part H.
  - scaling_part H.
  - scaling_part H.
Qed.

Lemma reynolds_scaling_tolerance_witness :
  let rho := density defaults in
  let mu := viscosity defaults in
  let r := reynolds_number 7 250 rho mu in
  rel_close (reynolds_number (3 * 7) 250 rho mu) (3 * r) /\
  rel_close (reynolds_number 7 250 (3 * rho) mu) (3 * r) /\
  rel_close (reynolds_number 7 (3 * 250) rho mu) (r / 3) /\
  rel_close (reynolds_number 7 250 rho (3 * mu)) (r / 3).
Proof.
  cbv zeta.
  destruct (reynolds_scaling_tolerance 3 7 250 (density defaults)
              (viscosity defaults)) as (H1 & H2 & H3 & H4).
  split; [apply H1; reflexivity|].
  split; [apply H2; reflexivity|].
  split; [apply H3; reflexivity | apply H4; reflexivity].
Defined.

End Scaling.

(** ** The arrays built by [main] *)

Section GridFacts.

Local Open Scope float_scope.

Lemma arange_length (k : Z) (num : nat) : length (arange k num) = num.
Proof.
  revert k. induction num as [|n IH]; intros k; simpl; [reflexivity|].
  now rewrite IH.
Qed.

Lemma linspace_length (start stop : float) (num : nat) :
  length (linspace start stop num) = num.
Proof.
  unfold linspace.
  set (y := map _ (if Nat.ltb 0 (num - 1) then _ else _)).
  assert (Hy : length y = num).
  { subst y. rewrite length_map.
    destruct (Nat.ltb 0 (num - 1)); [destruct (_ =? _)|];
      now rewrite length_map, arange_length. }
  destruct (Nat.ltb 1 num) eqn:E; [|assumption].
  apply Nat.ltb_lt in E.
  rewrite length_app, length_firstn, Hy. simpl. lia.
Qed.

Lemma linspace_last (start stop : float) (num : nat) :
  (1 < num)%nat -> nth_error (linspace start stop num) (num - 1) = Some stop.
Proof.
  intros Hnum. unfold linspace.
  set (y := map _ (if Nat.ltb 0 (num - 1) then _ else _)).
  assert (Hy : length y = num).
  { subst y. rewrite length_map.
    destruct (Nat.ltb 0 (num - 1)); [destruct (_ =? _)|];
      now rewrite length_map, arange_length. }
  apply Nat.ltb_lt in Hnum as E. rewrite E.
  rewrite nth_error_app2 by (rewrite length_firstn; lia).
  rewrite length_firstn, Hy.
  replace (num - 1 - Nat.min (num - 1) num)%nat with 0%nat by lia.
  reflexivity.
Qed.

Lemma meshgrid_shape (x y : list float) :
  shape2 (fst (meshgrid x y)) = repeat (length x) (length y) /\
  shape2 (snd (meshgrid x y)) = repeat (length x) (length y).
Proof.
  unfold meshgrid, shape2. simpl. rewrite !map_map.
  split; induction y as [|yi y IH]; simpl; try reflexivity;
    rewrite IH; f_equal. apply length_map.
Qed.

Lemma meshgrid_X (x y : list float) (i j : nat) :
  (i < length y)%nat ->
  entry2 (fst (meshgrid x y)) i j = nth_error x j.
Proof.
  intros Hi. unfold meshgrid, entry2. simpl. rewrite nth_error_map.
  destruct (nth_error y i) eqn:E; [reflexivity|].
  apply nth_error_None in E. lia.
Qed.

Lemma meshgrid_Y (x y : list float) (i j : nat) :
  (j < length x)%nat ->
  entry2 (snd (meshgrid x y)) i j = nth_error y i.
Proof.
  intros Hj. unfold meshgrid, entry2. simpl. rewrite nth_error_map.
  destruct (nth_error y i) as [yi|]; [|reflexivity]. simpl.
  rewrite nth_error_map.
  destruct (nth_error x j) eqn:E; [reflexivity|].
  apply nth_error_None in E. lia.
Qed.

Lemma nth_error_Some_lt {A : Type} (l : list A) (i : nat) (a : A) :
  nth_error l i = Some a -> (i < length l)%nat.
Proof. intros H. apply nth_error_Some. congruence. Qed.

(** [main] never raises, and these are the arrays it builds. *)
Lemma main_returns (p : params) :
  main p = Ok
    {| x := flow_rates p;
       y := diameters p;
       X := fst (meshgrid (flow_rates p) (diameters p));
       Y := snd (meshgrid (flow_rates p) (diameters p));
       Z_masked :=
         mask_z_values
           (map2 (map2 (fun xij yij =>
                          reynolds_number xij yij (density p) (viscosity p)))
                 (fst (meshgrid (flow_rates p) (diameters p)))
                 (snd (meshgrid (flow_rates p) (diameters p))))
           (z_low p) (z_high p);
       Z_boundary := full_like (fst (meshgrid (flow_rates p) (diameters p))) 2000;
       Z_y_fixed_masked :=
         mask_z_values
           (map (fun xi => reynolds_number xi (float_of_int (y_value p))
                                           (density p) (viscosity p))
                (flow_rates p))
           (z_low p) (z_high p) |}.
Proof.
  unfold main. fold (flow_rates p) (diameters p) (z_low p) (z_high p).
  destruct (meshgrid_shape (flow_rates p) (diameters p)) as [HX HY].
  destruct (meshgrid (flow_rates p) (diameters p)) as [X0 Y0] eqn:E.
  cbn [fst snd] in *.
  rewrite reynolds_array2 by congruence. cbn [bind].
  rewrite reynolds_array1_int. cbn [bind].
  reflexivity.
Qed.

End GridFacts.

(** ** The cross-section and the boundary plane *)

Section CrossSection.

Local Open Scope float_scope.

(** C4.  [main] returns; the inlined masking of the cross-section is
    [mask_z_values] applied to [reynolds(x, y_value, ...)]; its entry
    [i] is the mask of [reynolds(x[i], y_value, ...)]; every entry
    [[i][j]] of the masked surface is the mask of the formula at
    [x[j]] and [y[i]]; and a row of the surface whose diameter is
    [y_value] is the cross-section. *)
Theorem cross_section_consistent (p : params) :
  exists f : figures,
    main p = Ok f /\
    x f = flow_rates p /\ y f = diameters p /\
    (forall Z1 : list float,
       where_ (logical_or (less Z1 (z_low p)) (greater Z1 (z_high p))) nan Z1
       = mask_z_values Z1 (z_low p) (z_high p)) /\
    (exists Z_y_fixed : list float,
       reynolds (x f) (y_value p) (density p) (viscosity p) = Ok Z_y_fixed /\
       Z_y_fixed_masked f = mask_z_values Z_y_fixed (z_low p) (z_high p)) /\
    (forall i xi, nth_error (x f) i = Some xi ->
       exists r : float,
         reynolds (F64 xi) (y_value p) (density p) (viscosity p) = Ok (F64 r) /\
         nth_error (Z_y_fixed_masked f) i
         = Some (mask_z_values r (z_low p) (z_high p))) /\
    (forall i j xj yi,
       nth_error (x f) j = Some xj -> nth_error (y f) i = Some yi ->
       entry2 (Z_masked f) i j
       = Some (mask_z_values
                 (reynolds_number xj yi (density p) (viscosity p))
                 (z_low p) (z_high p))) /\
    (forall i,
       nth_error (y f) i = Some (float_of_int (y_value p)) ->
       nth_error (Z_masked f) i = Some (Z_y_fixed_masked f)).
Proof.
  eexists. split; [apply main_returns|]. cbn [x y Z_masked Z_y_fixed_masked].
  assert (Hlx : length (flow_rates p) = 100%nat) by apply linspace_length.
  assert (Hly : length (diameters p) = 100%nat) by apply linspace_length.
  repeat split.
  - eexists. split; [apply reynolds_array1_int | reflexivity].
  - intros i xi Hxi. eexists. split; [apply reynolds_float64_int|].
    rewrite mask_entry1, nth_error_map, Hxi. reflexivity.
  - intros i j xj yi Hxj Hyi.
    rewrite mask_entry2, entry2_map2.
    rewrite meshgrid_X by (rewrite Hly; apply nth_error_Some_lt in Hyi; lia).
    rewrite meshgrid_Y by (rewrite Hlx; apply nth_error_Some_lt in Hxj; lia).
    rewrite Hxj, Hyi. reflexivity.
  - intros i Hyi. rewrite mask_array2, nth_error_map, nth_error_map2.
    unfold meshgrid. cbn [fst snd]. rewrite !nth_error_map, Hyi.
    cbn [option_map]. rewrite mask_axis. f_equal. f_equal.
    clear. induction (flow_rates p) as [|xi l IH]; simpl; [reflexivity|].
    f_equal. apply IH.
Qed.

Lemma one_lt_hundred : (1 < 100)%nat.
Proof. repeat constructor. Qed.

Lemma cross_section_consistent_witness :
  exists f : figures,
    main defaults = Ok f /\
    nth_error (Z_masked f) 99 = Some (Z_y_fixed_masked f).
Proof.
  destruct (cross_section_consistent defaults)
    as (f & Hmain & Hx & Hy & _ & _ & _ & _ & Hrow).
  exists f. split; [exact Hmain|]. apply Hrow. rewrite Hy.
  exact (linspace_last (float_of_int 1) (float_of_int 250) one_lt_hundred).
Defined.

(** C7.  Whatever the parameters, the boundary plane has the shape of
    the grid, one hundred rows of one hundred entries, and each of its
    entries is 2000. *)
Theorem boundary_plane_constant (p : params) :
  exists f : figures,
    main p = Ok f /\
    shape2 (Z_boundary f) = shape2 (X f) /\
    shape2 (X f) = repeat 100%nat 100%nat /\
    (forall i j, (i < 100)%nat -> (j < 100)%nat ->
       entry2 (Z_boundary f) i j = Some 2000) /\
    (forall i j v, entry2 (Z_boundary f) i j = Some v -> v = 2000).
Proof.
  eexists. split; [apply main_returns|]. cbn [X Z_boundary].
  assert (Hlx : length (flow_rates p) = 100%nat) by apply linspace_length.
  assert (Hly : length (diameters p) = 100%nat) by apply linspace_length.
  destruct (meshgrid_shape (flow_rates p) (diameters p)) as [HX _].
  rewrite Hlx, Hly in HX.
  unfold full_like. repeat split.
  - apply shape2_map.
  - exact HX.
  - intros i j Hi Hj. rewrite entry2_map, meshgrid_X by lia.
    destruct (nth_error (flow_rates p) j) eqn:E; [reflexivity|].
    apply nth_error_None in E. lia.
  - intros i j v. rewrite entry2_map.
    destruct (entry2 _ i j); [|discriminate]. now intros [= <-].
Qed.

Lemma boundary_plane_constant_witness :
  exists f : figures,
    main defaults = Ok f /\ entry2 (Z_boundary f) 0 99 = Some 2000.
Proof.
  destruct (boundary_plane_constant defaults) as (f & Hmain & _ & _ & Hall & _).
  exists f. split; [exact Hmain|]. apply Hall; repeat constructor.
Defined.

End CrossSection.

(** ** The grid *)

Section Grid.

Local Open Scope float_scope.

Lemma SFltb_SFleb (a b : spec_float) : SFltb a b = true -> SFleb a b = true.
Proof.
  unfold SFltb, SFleb. destruct (SFcompare a b) as [[ | | ]|]; congruence.
Qed.

Lemma ltb_leb (a b : float) : (a <? b) = true -> (a <=? b) = true.
Proof. rewrite ltb_spec, leb_spec. apply SFltb_SFleb. Qed.

Lemma arange_nth (k : Z) (num i : nat) :
  (i < num)%nat ->
  nth_error (arange k num) i = Some (float_of_int (k + Z.of_nat i)).
Proof.
  revert k i. induction num as [|n IH]; intros k i Hi; [lia|].
  destruct i as [|i]; cbn [arange nth_error].
  - change (Z.of_nat 0) with 0%Z. now rewrite Z.add_0_r.
  - rewrite IH by lia. do 2 f_equal. lia.
Qed.

(** Below the last place an entry of [np.linspace] is its index times
    the step, plus the start, when the step is not zero. *)
Lemma linspace_entry (start stop : float) (num i : nat) :
  (i < num - 1)%nat ->
  ((stop - start) / float_of_int (Z.of_nat (num - 1)) =? 0) = false ->
  nth_error (linspace start stop num) i
  = Some (float_of_int (Z.of_nat i)
          * ((stop - start) / float_of_int (Z.of_nat (num - 1)))
          + start).
Proof.
  intros Hi Hstep. unfold linspace.
  replace (Nat.ltb 0 (num - 1)) with true by (symmetry; apply Nat.ltb_lt; lia).
  replace (Nat.ltb 1 num) with true by (symmetry; apply Nat.ltb_lt; lia).
  rewrite Hstep.
  rewrite nth_error_app1
    by (rewrite length_firstn, !length_map, arange_length; lia).
  rewrite nth_error_firstn.
  replace (Nat.ltb i (num - 1)) with true by (symmetry; apply Nat.ltb_lt; lia).
  rewrite !nth_error_map, arange_nth by lia. reflexivity.
Qed.

Lemma adjacent_nth (R : float -> float -> bool) (l : list float) :
  adjacent R l = true ->
  forall i a b, nth_error l i = Some a -> nth_error l (S i) = Some b ->
                R a b = true.
Proof.
  induction l as [|u l IH]; intros Hadj i a b Ha Hb; [now destruct i|].
  destruct l as [|w l]; [now destruct i|].
  simpl in Hadj. apply andb_prop in Hadj as [Huw Hadj].
  destruct i as [|i]; simpl in Ha, Hb.
  - congruence.
  - now apply (IH Hadj i).
Qed.

Lemma stepped_nth (start step : float) (l : list float) (k : Z) (n i : nat) :
  stepped start step k n l = true -> (i < n)%nat ->
  nth_error l i = Some (float_of_int (k + Z.of_nat i) * step + start).
Proof.
  revert k l i. induction n as [|n IH]; intros k l i Hst Hi; [lia|].
  destruct l as [|a t]; [discriminate Hst|]. simpl in Hst.
  apply andb_prop in Hst as [Ha Hst].
  destruct i as [|i]; cbn [nth_error].
  - apply FloatAxioms.Leibniz.eqb_spec in Ha.
    change (Z.of_nat 0) with 0%Z. rewrite Z.add_0_r. now subst a.
  - replace (k + Z.of_nat (S i))%Z with (k + 1 + Z.of_nat i)%Z by lia.
    apply IH; [exact Hst | lia].
Qed.

Lemma zrange_In (a z : Z) (n : nat) :
  (a <= z < a + Z.of_nat n)%Z -> In z (zrange a n).
Proof.
  intros Hz. unfold zrange. apply in_map_iff.
  exists (Z.to_nat (z - a)). split; [lia | apply in_seq; lia].
Qed.

(** Every pair of bounds that the diameter slider (1 to 500) can give
    passes its check; the pairs of the flow-rate slider (1 to 100) are
    among them. *)
Lemma all_flat_ok : forallb axis_flat_ok (zrange 1 500) = true.
Proof. vm_compute. reflexivity. Qed.

Lemma all_climb_ok :
  forallb (fun lo => forallb (axis_climb_ok lo)
                             (zrange (lo + 1) (Z.to_nat (500 - lo))))
          (zrange 1 499) = true.
Proof. vm_compute. reflexivity. Qed.

(** The indices counted in binary64 are the indices. *)
Lemma index_succ_ok :
  forallb (fun i => Leibniz.eqb (float_of_int (Z.of_nat (S i)))
                                (float_of_int (Z.of_nat i) + 1))
          (seq 0 99) = true.
Proof. vm_compute. reflexivity. Qed.

Lemma index_succ (i : nat) :
  (i < 99)%nat ->
  float_of_int (Z.of_nat i) + 1 = float_of_int (Z.of_nat (S i)).
Proof.
  intros Hi. symmetry. apply FloatAxioms.Leibniz.eqb_spec.
  apply (proj1 (forallb_forall _ _) index_succ_ok i). apply in_seq. lia.
Qed.

Lemma climbs_spec (step start stop : float) (n i : nat) (prev : float) :
  (i + n <= 98)%nat ->
  prev = float_of_int (Z.of_nat i) * step + start ->
  climbs step start stop n (float_of_int (Z.of_nat i)) prev = true ->
  (forall j, (i <= j < i + n)%nat ->
     (float_of_int (Z.of_nat j) * step + start
      <? float_of_int (Z.of_nat (S j)) * step + start) = true) /\
  (float_of_int (Z.of_nat (i + n)) * step + start <? stop) = true.
Proof.
  revert i prev. induction n as [|n IH]; intros i prev Hin Hprev Hc.
  - simpl in Hc. rewrite Nat.add_0_r, <- Hprev. split; [lia | exact Hc].
  - cbn [climbs] in Hc. cbv zeta in Hc. rewrite index_succ in Hc by lia.
    apply andb_prop in Hc as [Hlt Hc].
    destruct (IH (S i) _ ltac:(lia) eq_refl Hc) as [Hall Hlast].
    split.
    + intros j Hj. destruct (Nat.eq_dec j i) as [-> | Hne].
      * now rewrite <- Hprev.
      * apply Hall. lia.
    + now replace (i + S n)%nat with (S i + n)%nat by lia.
Qed.

Lemma linspace_axis_flat (lo : Z) :
  (1 <= lo <= 500)%Z ->
  axis_sequence lo lo (linspace (float_of_int lo) (float_of_int lo) 100).
Proof.
  intros Hlo.
  assert (Hok : axis_flat_ok lo = true).
  { apply (proj1 (forallb_forall _ _) all_flat_ok). apply zrange_In. lia. }
  unfold axis_flat_ok in Hok. cbv zeta in Hok.
  set (l := linspace (float_of_int lo) (float_of_int lo) 100) in *.
  assert (Hlen : length l = 100%nat) by apply linspace_length.
  apply andb_prop in Hok as [Hok Hle].
  apply andb_prop in Hok as [Hfirst Hstep].
  split; [exact Hlen|]. split; [|split; [|split]].
  - rewrite (nth_error_nth' l nan) by lia. f_equal.
    now apply FloatAxioms.Leibniz.eqb_spec.
  - exact (linspace_last (float_of_int lo) (float_of_int lo) one_lt_hundred).
  - intros i Hi. exact (stepped_nth _ _ _ _ Hstep Hi).
  - intros i a b Ha Hb. split; [exact (adjacent_nth _ _ Hle i Ha Hb) | lia].
Qed.

Lemma linspace_axis_climb (lo hi : Z) :
  (1 <= lo < hi)%Z -> (hi <= 500)%Z ->
  axis_sequence lo hi (linspace (float_of_int lo) (float_of_int hi) 100).
Proof.
  intros Hlo Hhi.
  assert (Hok : axis_climb_ok lo hi = true).
  { assert (Hlo_in : In lo (zrange 1 499)) by (apply zrange_In; lia).
    assert (Hhi_in : In hi (zrange (lo + 1) (Z.to_nat (500 - lo))))
      by (apply zrange_In; lia).
    exact (proj1 (forallb_forall _ _)
                 (proj1 (forallb_forall _ _) all_climb_ok lo Hlo_in)
                 hi Hhi_in). }
  unfold axis_climb_ok in Hok. cbv zeta in Hok.
  set (start := float_of_int lo) in *. set (stop := float_of_int hi) in *.
  set (step := (stop - start) / 99) in *.
  apply andb_prop in Hok as [Hok Hclimb].
  apply andb_prop in Hok as [Hstep Hfirst].
  apply negb_true_iff in Hstep.
  apply FloatAxioms.Leibniz.eqb_spec in Hfirst.
  assert (Hentry : forall i, (i < 99)%nat ->
            nth_error (linspace start stop 100) i
            = Some (float_of_int (Z.of_nat i) * step + start)).
  { intros i Hi. apply (@linspace_entry start stop 100 i); [lia|].
    exact Hstep. }
  assert (Hlast : nth_error (linspace start stop 100) 99 = Some stop)
    by exact (linspace_last start stop one_lt_hundred).
  destruct (@climbs_spec step start stop 98 0 start ltac:(lia)
              (eq_sym Hfirst) Hclimb) as [Hall Hend].
  assert (Hlt : forall i a b,
            nth_error (linspace start stop 100) i = Some a ->
            nth_error (linspace start stop 100) (S i) = Some b ->
            (a <? b) = true).
  { intros i a b Ha Hb.
    assert (Hi : (S i < 100)%nat).
    { apply nth_error_Some_lt in Hb. now rewrite linspace_length in Hb. }
    rewrite Hentry in Ha by lia. injection Ha as <-.
    destruct (Nat.eq_dec i 98) as [-> | Hne].
    - rewrite Hlast in Hb. injection Hb as <-. exact Hend.
    - rewrite Hentry in Hb by lia. injection Hb as <-. apply Hall. lia. }
  split; [apply linspace_length|]. split; [|split; [|split]].
  - rewrite Hentry by lia. f_equal. exact Hfirst.
  - exact Hlast.
  - exact Hentry.
  - intros i a b Ha Hb. pose proof (Hlt i a b Ha Hb) as H. split; [|auto].
    now apply ltb_leb.
Qed.

Lemma linspace_axis_sequence (lo hi : Z) :
  (1 <= lo <= hi)%Z -> (hi <= 500)%Z ->
  axis_sequence lo hi (linspace (float_of_int lo) (float_of_int hi) 100).
Proof.
  intros Hlo Hhi. destruct (Z.eq_dec lo hi) as [<- | Hne].
  - apply linspace_axis_flat. lia.
  - apply linspace_axis_climb; lia.
Qed.

End Grid.

Section GridBuilder.

Local Open Scope float_scope.

(** C8, the claim as written fails on the step: with the default
    flow-rate range, 1 to 20, the first three flow rates are 1,
    1.1919191919191918 and 1.3838383838383839, and the two gaps
    between them (both subtractions are exact) differ. *)
Lemma linspace_gaps_differ :
  exists f : figures,
    main defaults = Ok f /\
    nth_error (x f) 0 = Some 1 /\
    nth_error (x f) 1 = Some 0x1.31219dbcc4867p+0 /\
    nth_error (x f) 2 = Some 0x1.62433b79890cfp+0 /\
    0x1.31219dbcc4867p+0 - 1 = 0x1.890cede624338p-3 /\
    0x1.62433b79890cfp+0 - 0x1.31219dbcc4867p+0 = 0x1.890cede624340p-3 /\
    (0x1.890cede624338p-3 =? 0x1.890cede624340p-3) = false.
Proof.
  eexists. split; [apply main_returns|]. cbn [x].
  repeat split; vm_compute; reflexivity.
Qed.

(** C8 (amended).  For the integers that the two range sliders give,
    [main] returns two sequences of length 100, the flow rates from
    [x_min] to [x_max] and the diameters from [y_min] to [y_max]: the
    first entry is the minimum, the last the maximum, entry [i < 99] is
    [min + i * step] in binary64 arithmetic for the one
    [step = (max - min) / 99] (so the gaps are equal up to rounding
    only), and no entry is below the one before (it is above when
    [min < max]).  [X] and [Y] have 100 rows of 100 entries,
    [X[i][j] = x[j]] and [Y[i][j] = y[i]], so that [X] does not
    decrease along a row nor [Y] along a column. *)
Theorem grid_builder (p : params)
    (Hx : (1 <= x_min p <= x_max p)%Z /\ (x_max p <= 100)%Z)
    (Hy : (1 <= y_min p <= y_max p)%Z /\ (y_max p <= 500)%Z) :
  exists f : figures,
    main p = Ok f /\
    axis_sequence (x_min p) (x_max p) (x f) /\
    axis_sequence (y_min p) (y_max p) (y f) /\
    shape2 (X f) = repeat 100%nat 100%nat /\
    shape2 (Y f) = repeat 100%nat 100%nat /\
    (forall i j, (i < 100)%nat -> entry2 (X f) i j = nth_error (x f) j) /\
    (forall i j, (j < 100)%nat -> entry2 (Y f) i j = nth_error (y f) i) /\
    (forall i j a b,
       entry2 (X f) i j = Some a -> entry2 (X f) i (S j) = Some b ->
       (a <=? b) = true /\ ((x_min p < x_max p)%Z -> (a <? b) = true)) /\
    (forall i j a b,
       entry2 (Y f) i j = Some a -> entry2 (Y f) (S i) j = Some b ->
       (a <=? b) = true /\ ((y_min p < y_max p)%Z -> (a <? b) = true)).
Proof.
  destruct Hx as [Hx Hx'], Hy as [Hy Hy'].
  eexists. split; [apply main_returns|]. cbn [x y X Y].
  assert (Hax : axis_sequence (x_min p) (x_max p) (flow_rates p))
    by (apply linspace_axis_sequence; lia).
  assert (Hay : axis_sequence (y_min p) (y_max p) (diameters p))
    by (now apply linspace_axis_sequence).
  assert (Hlx : length (flow_rates p) = 100%nat) by apply Hax.
  assert (Hly : length (diameters p) = 100%nat) by apply Hay.
  destruct (meshgrid_shape (flow_rates p) (diameters p)) as [HX HY].
  rewrite Hlx, Hly in HX, HY.
  assert (HXe : forall i j, (i < 100)%nat ->
            entry2 (fst (meshgrid (flow_rates p) (diameters p))) i j
            = nth_error (flow_rates p) j)
    by (intros; apply meshgrid_X; lia).
  assert (HYe : forall i j, (j < 100)%nat ->
            entry2 (snd (meshgrid (flow_rates p) (diameters p))) i j
            = nth_error (diameters p) i)
    by (intros; apply meshgrid_Y; lia).
  assert (HXrows : forall i j a,
            entry2 (fst (meshgrid (flow_rates p) (diameters p))) i j = Some a ->
            (i < 100)%nat).
  { intros i j a Ha. unfold entry2 in Ha.
    destruct (nth_error _ i) eqn:E; [|discriminate].
    apply nth_error_Some_lt in E. unfold meshgrid in E. cbn [fst] in E.
    rewrite length_map in E. lia. }
  assert (HYcols : forall i j a,
            entry2 (snd (meshgrid (flow_rates p) (diameters p))) i j = Some a ->
            (j < 100)%nat).
  { intros i j a Ha. unfold entry2, meshgrid in Ha. cbn [snd] in Ha.
    rewrite nth_error_map in Ha.
    destruct (nth_error (diameters p) i); [|discriminate]. cbn [option_map] in Ha.
    apply nth_error_Some_lt in Ha. rewrite length_map in Ha. lia. }
  split; [exact Hax|]. split; [exact Hay|].
  split; [exact HX|]. split; [exact HY|].
  split; [exact HXe|]. split; [exact HYe|].
  split.
  - intros i j a b Ha Hb. pose proof (HXrows _ _ _ Ha) as Hi.
    rewrite HXe in Ha, Hb by assumption.
    exact (proj2 (proj2 (proj2 (proj2 Hax))) j a b Ha Hb).
  - intros i j a b Ha Hb. pose proof (HYcols _ _ _ Ha) as Hj.
    rewrite HYe in Ha, Hb by assumption.
    exact (proj2 (proj2 (proj2 (proj2 Hay))) i a b Ha Hb).
Qed.

Lemma grid_builder_witness :
  exists f : figures,
    main defaults = Ok f /\
    axis_sequence 1 20 (x f) /\ axis_sequence 1 250 (y f) /\
    shape2 (X f) = repeat 100%nat 100%nat /\
    shape2 (Y f) = repeat 100%nat 100%nat.
Proof.
  destruct (@grid_builder defaults ltac:(simpl; lia) ltac:(simpl; lia))
    as (f & Hmain & Hax & Hay & HX & HY & _).
  exists f. auto.
Defined.

End GridBuilder.

(** * Further properties of the program *)

(** ** What the two figures receive *)

Section Figures.

Local Open Scope float_scope.

Lemma all_from_spec (f : Z -> bool) (n : nat) (z k : Z) :
  all_from f z n = true -> (z <= k < z + Z.of_nat n)%Z -> f k = true.
Proof.
  revert z. induction n as [|n IH]; intros z Hall Hk; [lia|].
  cbn [all_from] in Hall. apply andb_prop in Hall as [Hz Hall].
  destruct (Z.eq_dec k z) as [-> | Hne]; [exact Hz|].
  apply (IH (z + 1)%Z Hall). lia.
Qed.

(** Every bound that the display-range slider (1 to 10000) can give is,
    as a float, finite and above zero. *)
Lemma all_bounds_ok : all_from bound_ok 1 (Z.to_nat 10000) = true.
Proof. vm_compute. reflexivity. Qed.

Lemma bound_ok_slider (z : Z) :
  (1 <= z <= 10000)%Z ->
  is_finite (float_of_int z) = true /\ (0 <? float_of_int z) = true.
Proof.
  intros Hz. apply andb_prop.
  apply (@all_from_spec bound_ok (Z.to_nat 10000) 1%Z z all_bounds_ok). lia.
Qed.

Lemma mask_in_range (low high v : float) :
  is_nan low = false -> is_nan high = false ->
  mask_z_values v low high = nan \/
  (mask_z_values v low high = v /\
   (low <=? v) = true /\ (v <=? high) = true).
Proof.
  intros Hl Hh. rewrite mask_scalar.
  destruct (v <? low) eqn:E1; [now left|].
  destruct (high <? v) eqn:E2; [now left|]. cbn [orb].
  destruct (is_nan v) eqn:Hv.
  - left. now apply is_nan_true.
  - right. split; [reflexivity|]. split; now apply not_ltb_leb.
Qed.

Lemma shape2_repeat_entry {A : Type} (a : list (list A)) (r c i j : nat) :
  shape2 a = repeat c r -> (i < r)%nat -> (j < c)%nat ->
  exists v, entry2 a i j = Some v.
Proof.
  intros Hshape Hi Hj. unfold entry2.
  assert (Hlen : length a = r).
  { apply (f_equal (@length nat)) in Hshape. unfold shape2 in Hshape.
    now rewrite length_map, repeat_length in Hshape. }
  destruct (nth_error a i) as [row|] eqn:E.
  - assert (Hrow : length row = c).
    { pose proof (map_nth_error (@length A) _ _ E) as Hm.
      fold (shape2 a) in Hm. rewrite Hshape in Hm.
      rewrite nth_error_repeat in Hm by lia. congruence. }
    destruct (nth_error row j) as [v|] eqn:Ej; [now exists v|].
    apply nth_error_None in Ej. lia.
  - apply nth_error_None in E. lia.
Qed.

(** X1.  Whatever the parameters, [main] raises nothing, and the arrays
    of each figure fit together: [X], [Y], the masked surface and the
    boundary plane all have 100 rows of 100 entries, so every place
    [[i][j]] with [i, j < 100] holds an entry in each of them, and the
    flow rates and the masked cross-section both have length 100. *)
Theorem main_figures_fit (p : params) :
  exists f : figures,
    main p = Ok f /\
    shape2 (X f) = repeat 100%nat 100%nat /\
    shape2 (Y f) = repeat 100%nat 100%nat /\
    shape2 (Z_masked f) = repeat 100%nat 100%nat /\
    shape2 (Z_boundary f) = repeat 100%nat 100%nat /\
    length (x f) = 100%nat /\
    length (Z_y_fixed_masked f) = 100%nat /\
    (forall i j, (i < 100)%nat -> (j < 100)%nat ->
       exists z, entry2 (Z_masked f) i j = Some z) /\
    (forall j, (j < 100)%nat ->
       exists z, nth_error (Z_y_fixed_masked f) j = Some z).
Proof.
  eexists. split; [apply main_returns|].
  cbn [x X Y Z_masked Z_boundary Z_y_fixed_masked].
  assert (Hlx : length (flow_rates p) = 100%nat) by apply linspace_length.
  assert (Hly : length (diameters p) = 100%nat) by apply linspace_length.
  destruct (meshgrid_shape (flow_rates p) (diameters p)) as [HX HY].
  rewrite Hlx, Hly in HX, HY.
  assert (HZ : shape2 (mask_z_values
                 (map2 (map2 (fun xij yij =>
                    reynolds_number xij yij (density p) (viscosity p)))
                    (fst (meshgrid (flow_rates p) (diameters p)))
                    (snd (meshgrid (flow_rates p) (diameters p))))
                 (z_low p) (z_high p)) = repeat 100%nat 100%nat).
  { rewrite mask_array2, shape2_map, shape2_map2 by congruence. exact HX. }
  assert (Hc : length (mask_z_values
                 (map (fun xi => reynolds_number xi (float_of_int (y_value p))
                                   (density p) (viscosity p)) (flow_rates p))
                 (z_low p) (z_high p)) = 100%nat).
  { now rewrite mask_axis, !length_map. }
  split; [exact HX|]. split; [exact HY|]. split; [exact HZ|].
  split; [unfold full_like; now rewrite shape2_map|].
  split; [exact Hlx|]. split; [exact Hc|]. split.
  - intros i j Hi Hj. eapply shape2_repeat_entry; eassumption.
  - intros j Hj. destruct (nth_error _ j) as [z|] eqn:E; [now exists z|].
    apply nth_error_None in E. lia.
Qed.

(** X2.  With the bounds of the display-range slider, every entry of
    the masked surface and of the masked cross-section is NaN or lies
    between [z_min] and [z_max], the range given to the z axis, whether
    or not the diameter or the viscosity is zero. *)
Theorem displayed_values_in_range (p : params)
    (Hmin : (1 <= z_min p <= 10000)%Z) (Hmax : (1 <= z_max p <= 10000)%Z) :
  exists f : figures,
    main p = Ok f /\
    (forall i j v, entry2 (Z_masked f) i j = Some v ->
       v = nan \/ ((z_low p <=? v) = true /\ (v <=? z_high p) = true)) /\
    (forall j v, nth_error (Z_y_fixed_masked f) j = Some v ->
       v = nan \/ ((z_low p <=? v) = true /\ (v <=? z_high p) = true)).
Proof.
  eexists. split; [apply main_returns|]. cbn [Z_masked Z_y_fixed_masked].
  assert (Hl : is_nan (z_low p) = false)
    by (apply is_finite_not_nan; now apply bound_ok_slider).
  assert (Hh : is_nan (z_high p) = false)
    by (apply is_finite_not_nan; now apply bound_ok_slider).
  assert (Hone : forall u v, Some (mask_z_values u (z_low p) (z_high p)) = Some v ->
            v = nan \/ ((z_low p <=? v) = true /\ (v <=? z_high p) = true)).
  { intros u v Hv.
    assert (v = mask_z_values u (z_low p) (z_high p)) as -> by congruence.
    destruct (@mask_in_range (z_low p) (z_high p) u Hl Hh)
      as [E | (E & H1 & H2)]; rewrite E; auto. }
  split.
  - intros i j v. rewrite mask_entry2.
    destruct (entry2 _ i j) as [u|]; [apply Hone | discriminate].
  - intros j v. rewrite mask_entry1.
    destruct (nth_error _ j) as [u|]; [apply Hone | discriminate].
Qed.

Lemma displayed_values_in_range_witness :
  exists f : figures,
    main defaults = Ok f /\
    (forall i j v, entry2 (Z_masked f) i j = Some v ->
       v = nan \/ ((1 <=? v) = true /\ (v <=? 5000) = true)).
Proof.
  destruct (@displayed_values_in_range defaults ltac:(simpl; lia)
              ltac:(simpl; lia)) as (f & Hmain & Hs & _).
  exists f. split; [exact Hmain | exact Hs].
Defined.

End Figures.

(** ** A zero density or viscosity, which the widgets allow *)

Section BlankCharts.

Local Open Scope float_scope.

Lemma SFdiv_null_l (p q : spec_float) :
  sf_null p = true -> sf_null (SF64div p q) = true.
Proof. destruct p; try discriminate; destruct q; reflexivity. Qed.

Lemma reynolds_number_null (x y density viscosity : float) :
  is_zero density = true ->
  sf_null (Prim2SF (reynolds_number x y density viscosity)) = true.
Proof.
  intros Hd. unfold reynolds_number.
  rewrite div_spec. apply SFdiv_null_l.
  rewrite mul_spec. apply SFmul_null_l.
  rewrite mul_spec. apply SFmul_null_r. now apply is_zero_null.
Qed.

Lemma reynolds_number_unbounded (x y density viscosity : float) :
  is_zero viscosity = true ->
  sf_unbounded (Prim2SF (reynolds_number x y density viscosity)) = true.
Proof.
  intros Hv. unfold reynolds_number.
  rewrite div_spec. apply SFdiv_null. apply denominator_null. now right.
Qed.

Lemma finite_spec (a : float) :
  is_finite a = true ->
  match Prim2SF a with
  | S754_zero _ | S754_finite _ _ _ => True
  | _ => False
  end.
Proof.
  unfold is_finite, is_nan, is_infinity. rewrite !eqb_spec, abs_spec.
  change (Prim2SF infinity) with (S754_infinity false).
  destruct (Prim2SF a) as [s|s| |s m e]; try exact (fun _ => I);
    try destruct s; discriminate.
Qed.

Lemma mask_null (low high r : float) :
  sf_null (Prim2SF r) = true -> (0 <? low) = true ->
  mask_z_values r low high = nan.
Proof.
  intros Hr Hlow. destruct (null_cases _ Hr) as [Hz | ->]; [|apply mask_nan].
  apply mask_outside. left.
  unfold is_zero in Hz. rewrite eqb_spec in Hz. rewrite ltb_spec in *.
  change (Prim2SF 0) with (S754_zero false) in Hlow.
  change (Prim2SF zero) with (S754_zero false) in Hz.
  destruct (Prim2SF r) as [s|s| |s m e]; try discriminate Hr;
    [exact Hlow | discriminate Hz].
Qed.

Lemma mask_unbounded (low high r : float) :
  sf_unbounded (Prim2SF r) = true ->
  is_finite low = true -> is_finite high = true ->
  mask_z_values r low high = nan.
Proof.
  intros Hr Hlow Hhigh.
  apply finite_spec in Hlow. apply finite_spec in Hhigh.
  destruct (Prim2SF r) as [s|s| |s m e] eqn:E; try discriminate Hr.
  - apply mask_outside. rewrite !ltb_spec, E.
    destruct s; [left | right].
    + destruct (Prim2SF low); try contradiction; reflexivity.
    + destruct (Prim2SF high); try contradiction; reflexivity.
  - assert (r = nan) as -> by (apply Prim2SF_inj; now rewrite E).
    apply mask_nan.
Qed.

(** Every entry of both masked arrays of [main] is NaN as soon as the
    mask of every value of the formula is. *)
Lemma all_masked (p : params) :
  (forall u w, mask_z_values
                 (reynolds_number u w (density p) (viscosity p))
                 (z_low p) (z_high p) = nan) ->
  exists f : figures,
    main p = Ok f /\
    (forall i j v, entry2 (Z_masked f) i j = Some v -> v = nan) /\
    (forall j v, nth_error (Z_y_fixed_masked f) j = Some v -> v = nan).
Proof.
  intros Hall. eexists. split; [apply main_returns|].
  cbn [Z_masked Z_y_fixed_masked]. split.
  - intros i j v. rewrite mask_entry2, entry2_map2.
    destruct (entry2 _ i j) as [u|]; [|discriminate].
    destruct (entry2 _ i j) as [w|]; [|discriminate].
    cbn [option_map]. rewrite Hall. congruence.
  - intros j v. rewrite mask_entry1, nth_error_map.
    destruct (nth_error _ j) as [u|]; [|discriminate].
    cbn [option_map]. rewrite Hall. congruence.
Qed.

(** X3.  With a density of zero, which its widget allows, and any lower
    bound of the display-range slider, both charts are blank: every
    entry of the masked surface and of the masked cross-section is NaN,
    whatever the viscosity and the other ranges. *)
Theorem zero_density_blank (p : params)
    (Hdensity : is_zero (density p) = true)
    (Hmin : (1 <= z_min p <= 10000)%Z) :
  exists f : figures,
    main p = Ok f /\
    (forall i j v, entry2 (Z_masked f) i j = Some v -> v = nan) /\
    (forall j v, nth_error (Z_y_fixed_masked f) j = Some v -> v = nan).
Proof.
  apply all_masked. intros u w. apply mask_null.
  - now apply reynolds_number_null.
  - now apply bound_ok_slider.
Qed.

Lemma zero_density_blank_witness :
  exists f : figures,
    main {| viscosity := viscosity defaults; density := 0;
            x_min := 1; x_max := 20; y_min := 1; y_max := 250;
            z_min := 1; z_max := 5000; y_value := 250 |} = Ok f /\
    (forall i j v, entry2 (Z_masked f) i j = Some v -> v = nan) /\
    (forall j v, nth_error (Z_y_fixed_masked f) j = Some v -> v = nan).
Proof.
  apply zero_density_blank; [reflexivity | simpl; lia].
Defined.

(** X4.  With a viscosity of zero, which its widget allows, and any
    bounds of the display-range slider, both charts are blank: every
    entry of the masked surface and of the masked cross-section is NaN
    (the infinities and NaNs of the division fall outside the range),
    and nothing is raised. *)
Theorem zero_viscosity_blank (p : params)
    (Hviscosity : is_zero (viscosity p) = true)
    (Hmin : (1 <= z_min p <= 10000)%Z) (Hmax : (1 <= z_max p <= 10000)%Z) :
  exists f : figures,
    main p = Ok f /\
    (forall i j v, entry2 (Z_masked f) i j = Some v -> v = nan) /\
    (forall j v, nth_error (Z_y_fixed_masked f) j = Some v -> v = nan).
Proof.
  apply all_masked. intros u w. apply mask_unbounded.
  - now apply reynolds_number_unbounded.
  - now apply bound_ok_slider.
  - now apply bound_ok_slider.
Qed.

Lemma zero_viscosity_blank_witness :
  exists f : figures,
    main {| viscosity := 0; density := density defaults;
            x_min := 1; x_max := 20; y_min := 1; y_max := 250;
            z_min := 1; z_max := 5000; y_value := 250 |} = Ok f /\
    (forall i j v, entry2 (Z_masked f) i j = Some v -> v = nan) /\
    (forall j v, nth_error (Z_y_fixed_masked f) j = Some v -> v = nan).
Proof.
  apply zero_viscosity_blank; [reflexivity | simpl; lia | simpl; lia].
Defined.

End BlankCharts.

(** ** More on [mask_z_values] *)

Section MaskAlgebra.

Local Open Scope float_scope.

Local Ltac order_cases :=
  repeat match goal with
  | f : spec_float |- _ => destruct f
  | b : bool |- _ => destruct b
  end;
  simpl in *; try congruence;
  repeat match goal with
  | |- context [Pos.compare_cont Eq ?a ?b] =>
    change (Pos.compare_cont Eq a b) with (Pos.compare a b)
  | H : context [Pos.compare_cont Eq ?a ?b] |- _ =>
    change (Pos.compare_cont Eq a b) with (Pos.compare a b) in H
  end;
  repeat match goal with
  | |- context [Z.compare ?a ?b] => destruct (Z.compare_spec a b)
  | H : context [Z.compare ?a ?b] |- _ => destruct (Z.compare_spec a b)
  | |- context [Pos.compare ?a ?b] => destruct (Pos.compare_spec a b)
  | H : context [Pos.compare ?a ?b] |- _ => destruct (Pos.compare_spec a b)
  end;
  simpl in *; subst; try congruence; try lia.

Lemma SFltb_SFleb_SFltb (a b c : spec_float) :
  SFltb a b = true -> SFleb b c = true -> SFltb a c = true.
Proof. unfold SFltb, SFleb. order_cases. Qed.

Lemma SFleb_SFltb_SFltb (a b c : spec_float) :
  SFleb a b = true -> SFltb b c = true -> SFltb a c = true.
Proof. unfold SFltb, SFleb. order_cases. Qed.

Lemma ltb_leb_trans (a b c : float) :
  (a <? b) = true -> (b <=? c) = true -> (a <? c) = true.
Proof. rewrite !ltb_spec, leb_spec. apply SFltb_SFleb_SFltb. Qed.

Lemma leb_ltb_trans (a b c : float) :
  (a <=? b) = true -> (b <? c) = true -> (a <? c) = true.
Proof. rewrite !ltb_spec, leb_spec. apply SFleb_SFltb_SFltb. Qed.

Lemma mask_kept (low high v : float) :
  is_nan (mask_z_values v low high) = false ->
  mask_z_values v low high = v /\
  (v <? low) = false /\ (high <? v) = false.
Proof.
  rewrite mask_scalar.
  destruct (v <? low); [discriminate|].
  destruct (high <? v); [discriminate|]. auto.
Qed.

Lemma mask_widen_scalar (low high low' high' v : float) :
  (low' <=? low) = true -> (high <=? high') = true ->
  is_nan (mask_z_values v low high) = false ->
  mask_z_values v low' high' = mask_z_values v low high.
Proof.
  intros Hl Hh Hkept.
  destruct (@mask_kept low high v Hkept) as (E & H1 & H2). rewrite E.
  rewrite mask_scalar.
  destruct (v <? low') eqn:E1.
  - rewrite (@ltb_leb_trans v low' low E1 Hl) in H1. discriminate.
  - destruct (high' <? v) eqn:E2; [|reflexivity].
    rewrite (@leb_ltb_trans high high' v Hh E2) in H2. discriminate.
Qed.

(** X5.  Widening the display range never hides what was shown: with
    [low' <= low] and [high <= high'], an entry of the array masked by
    [low, high] that is not NaN is found unchanged at the same place of
    the array masked by [low', high']. *)
Theorem mask_z_values_widen (low high low' high' : float)
    (Hlow : (low' <=? low) = true) (Hhigh : (high <=? high') = true) :
  (forall (Z : list float) i v,
     nth_error (mask_z_values Z low high) i = Some v -> is_nan v = false ->
     nth_error (mask_z_values Z low' high') i = Some v) /\
  (forall (Z : list (list float)) i j v,
     entry2 (mask_z_values Z low high) i j = Some v -> is_nan v = false ->
     entry2 (mask_z_values Z low' high') i j = Some v).
Proof.
  split.
  - intros Z i v. rewrite !mask_entry1.
    destruct (nth_error Z i) as [u|]; [|discriminate]. cbn [option_map].
    intros Hv Hnan.
    assert (v = mask_z_values u low high) as -> by congruence.
    now rewrite (@mask_widen_scalar low high low' high' u Hlow Hhigh Hnan).
  - intros Z i j v. rewrite !mask_entry2.
    destruct (entry2 Z i j) as [u|]; [|discriminate]. cbn [option_map].
    intros Hv Hnan.
    assert (v = mask_z_values u low high) as -> by congruence.
    now rewrite (@mask_widen_scalar low high low' high' u Hlow Hhigh Hnan).
Qed.

Lemma mask_z_values_widen_witness :
  nth_error (mask_z_values [0; 2000; 6000] 1 10000) 1 = Some 2000.
Proof.
  apply (proj1 (@mask_z_values_widen 1000 5000 1 10000 eq_refl eq_refl)
               [0; 2000; 6000] 1%nat 2000); reflexivity.
Defined.

Lemma mask_commute_scalar (low1 high1 low2 high2 v : float) :
  mask_z_values (mask_z_values v low1 high1) low2 high2
  = mask_z_values (mask_z_values v low2 high2) low1 high1.
Proof.
  rewrite (mask_scalar low1 high1 v), (mask_scalar low2 high2 v).
  destruct ((v <? low1) || (high1 <? v)) eqn:E1;
    destruct ((v <? low2) || (high2 <? v)) eqn:E2;
    rewrite ?mask_nan; try reflexivity.
  - rewrite mask_scalar. now rewrite E1.
  - rewrite mask_scalar. now rewrite E2.
  - rewrite !mask_scalar. now rewrite E1, E2.
Qed.

(** X6.  Two masks can be applied in either order: masking by
    [low1, high1] and then by [low2, high2] gives the same array as
    masking by [low2, high2] and then by [low1, high1]. *)
Theorem mask_z_values_commute (low1 high1 low2 high2 : float) :
  (forall Z : list float,
     mask_z_values (mask_z_values Z low1 high1) low2 high2
     = mask_z_values (mask_z_values Z low2 high2) low1 high1) /\
  (forall Z : list (list float),
     mask_z_values (mask_z_values Z low1 high1) low2 high2
     = mask_z_values (mask_z_values Z low2 high2) low1 high1).
Proof.
  split; intros Z.
  - rewrite !mask_axis, !map_map. apply map_ext. intros v.
    apply mask_commute_scalar.
  - rewrite !mask_array2, !map_map. apply map_ext. intros row.
    rewrite !map_map. apply map_ext. intros v. apply mask_commute_scalar.
Qed.

Lemma ltb_neg_infinity_r (a : float) : (a <? neg_infinity) = false.
Proof.
  rewrite ltb_spec. change (Prim2SF neg_infinity) with (S754_infinity true).
  destruct (Prim2SF a) as [s|s| |s m e]; try reflexivity; now destruct s.
Qed.

Lemma ltb_infinity_l (a : float) : (infinity <? a) = false.
Proof.
  rewrite ltb_spec. change (Prim2SF infinity) with (S754_infinity false).
  destruct (Prim2SF a) as [s|s| |s m e]; try reflexivity; now destruct s.
Qed.

(** X7.  A bound that is NaN filters nothing on its side, as an infinite
    bound does: with [low] NaN or minus infinity and [high] NaN or plus
    infinity, [mask_z_values] returns its argument unchanged, infinite
    and NaN entries included. *)
Theorem mask_z_values_unfiltered (low high : float)
    (Hlow : low = nan \/ low = neg_infinity)
    (Hhigh : high = nan \/ high = infinity) :
  (forall v : float, mask_z_values v low high = v) /\
  (forall Z : list float, mask_z_values Z low high = Z) /\
  (forall Z : list (list float), mask_z_values Z low high = Z).
Proof.
  assert (H0 : forall v : float, mask_z_values v low high = v).
  { intros v. rewrite mask_scalar.
    destruct Hlow as [-> | ->], Hhigh as [-> | ->];
      now rewrite ?ltb_nan_r, ?ltb_nan_l, ?ltb_neg_infinity_r, ?ltb_infinity_l. }
  assert (H1 : forall Z : list float, mask_z_values Z low high = Z).
  { intros Z. rewrite mask_axis. rewrite (map_ext _ (fun v => v) H0).
    apply map_id. }
  split; [exact H0|]. split; [exact H1|].
  intros Z. rewrite mask_axis. rewrite (map_ext _ (fun r => r) H1).
  apply map_id.
Qed.

Lemma mask_z_values_unfiltered_witness :
  mask_z_values [neg_infinity; 0; nan; infinity] nan nan
  = [neg_infinity; 0; nan; infinity].
Proof.
  apply (proj1 (proj2 (@mask_z_values_unfiltered nan nan
                         (or_introl eq_refl) (or_introl eq_refl)))).
Defined.

End MaskAlgebra.

(** ** The sign of the result, and NaN arguments *)

Section ReynoldsSign.

Local Open Scope float_scope.

Lemma round_plus (m e : Z) (l : location) :
  sf_plus (binary_round_aux prec emax false m e l) = true.
Proof.
  unfold binary_round_aux.
  destruct (shr_fexp prec emax m e l) as [mrs' e'].
  destruct (shr_fexp prec emax _ e' loc_Exact) as [mrs'' e''].
  destruct (shr_m mrs''); try reflexivity.
  now destruct (Z.leb e'' (emax - prec)).
Qed.

Lemma sf_plus_nonneg (p : spec_float) : sf_plus p = true -> sf_nonneg p = true.
Proof. now destruct p. Qed.

Lemma SFmul_nonneg (a b : spec_float) :
  sf_nonneg a = true -> sf_nonneg b = true -> sf_nonneg (SF64mul a b) = true.
Proof.
  destruct a as [sa|sa| |sa ma ea], b as [sb|sb| |sb mb eb];
    try reflexivity; try (destruct sa; try discriminate);
    try (destruct sb; try discriminate); try reflexivity.
  intros _ _. apply sf_plus_nonneg. apply round_plus.
Qed.

Lemma SFmul_plus (a b : spec_float) :
  sf_plus a = true -> sf_plus b = true -> sf_plus (SF64mul a b) = true.
Proof.
  destruct a as [sa|sa| |sa ma ea], b as [sb|sb| |sb mb eb];
    try reflexivity; try (destruct sa; try discriminate);
    try (destruct sb; try discriminate); try reflexivity.
  intros _ _. apply round_plus.
Qed.

Lemma SFdiv_nonneg (a b : spec_float) :
  sf_nonneg a = true -> sf_plus b = true -> sf_nonneg (SF64div a b) = true.
Proof.
  destruct a as [sa|sa| |sa ma ea], b as [sb|sb| |sb mb eb];
    try reflexivity; try (destruct sb; try discriminate);
    try (destruct sa; try discriminate); try reflexivity.
  intros _ _. unfold SF64div, SFdiv.
  destruct (SFdiv_core_binary prec emax (Z.pos ma) ea (Z.pos mb) eb)
    as [[mz ez] lz].
  apply sf_plus_nonneg. apply round_plus.
Qed.

Lemma not_below_zero_nonneg (a : float) :
  (a <? 0) = false -> sf_nonneg (Prim2SF a) = true.
Proof.
  rewrite ltb_spec. change (Prim2SF 0) with (S754_zero false).
  destruct (Prim2SF a) as [s|s| |s m e]; try reflexivity;
    now destruct s.
Qed.

Lemma above_zero_plus (a : float) :
  (0 <? a) = true -> sf_plus (Prim2SF a) = true.
Proof.
  rewrite ltb_spec. change (Prim2SF 0) with (S754_zero false).
  destruct (Prim2SF a) as [s|s| |s m e]; try discriminate;
    now destruct s.
Qed.

Lemma nonneg_not_below_zero (a : float) :
  sf_nonneg (Prim2SF a) = true -> (a <? 0) = false.
Proof.
  rewrite ltb_spec. change (Prim2SF 0) with (S754_zero false).
  destruct (Prim2SF a) as [s|s| |s m e]; try reflexivity;
    now destruct s.
Qed.

Lemma reynolds_number_not_negative (x y density viscosity : float) :
  (x <? 0) = false -> (density <? 0) = false ->
  (0 <? y) = true -> (0 <? viscosity) = true ->
  (reynolds_number x y density viscosity <? 0) = false.
Proof.
  intros Hx Hd Hy Hv. apply nonneg_not_below_zero. unfold reynolds_number.
  rewrite div_spec. apply SFdiv_nonneg.
  - rewrite !mul_spec. apply SFmul_nonneg; [apply SFmul_nonneg|].
    + reflexivity.
    + now apply not_below_zero_nonneg.
    + now apply not_below_zero_nonneg.
  - rewrite !mul_spec. repeat apply SFmul_plus; try reflexivity;
      now apply above_zero_plus.
Qed.

(** X8.  With a flow rate and a density that are not below zero and a
    diameter and a viscosity above zero, the result is never negative:
    for NumPy scalars, for plain Python floats (where the call may
    still raise when the denominator underflows to zero), and at every
    entry of two arrays of one shape whose flow rate and diameter are
    such. *)
Theorem reynolds_never_negative (density viscosity : float)
    (Hdensity : (density <? 0) = false)
    (Hviscosity : (0 <? viscosity) = true) :
  (forall x y : float, (x <? 0) = false -> (0 <? y) = true ->
     exists r, reynolds (F64 x) (F64 y) density viscosity = Ok (F64 r) /\
               (r <? 0) = false) /\
  (forall x y : float, (x <? 0) = false -> (0 <? y) = true ->
     reynolds x y density viscosity = Raise ZeroDivisionError \/
     exists r, reynolds x y density viscosity = Ok r /\ (r <? 0) = false) /\
  (forall X Y : list (list float), shape2 X = shape2 Y ->
     exists Z : list (list float),
       reynolds X Y density viscosity = Ok Z /\
       forall i j xij yij r,
         entry2 X i j = Some xij -> entry2 Y i j = Some yij ->
         (xij <? 0) = false -> (0 <? yij) = true ->
         entry2 Z i j = Some r -> (r <? 0) = false).
Proof.
  split; [|split].
  - intros x y Hx Hy. eexists. split; [apply reynolds_float64|].
    now apply reynolds_number_not_negative.
  - intros x y Hx Hy. rewrite reynolds_python.
    destruct (is_zero _); [now left | right].
    eexists. split; [reflexivity|]. now apply reynolds_number_not_negative.
  - intros X0 Y0 Hshape. eexists. split; [now apply reynolds_array2|].
    intros i j xij yij r HX HY Hx Hy. rewrite entry2_map2, HX, HY.
    intros Hr. assert (r = reynolds_number xij yij density viscosity)
      as -> by congruence.
    now apply reynolds_number_not_negative.
Qed.

Lemma reynolds_never_negative_witness :
  exists r, reynolds (F64 10) (F64 100) (density defaults) (viscosity defaults)
            = Ok (F64 r) /\ (r <? 0) = false.
Proof.
  apply (proj1 (@reynolds_never_negative (density defaults) (viscosity defaults)
                  eq_refl eq_refl)); reflexivity.
Defined.

Lemma mul_nan_r (a : float) : a * nan = nan.
Proof.
  apply Prim2SF_inj. rewrite mul_spec, Prim2SF_nan. now destruct (Prim2SF a).
Qed.

Lemma mul_nan_l (a : float) : nan * a = nan.
Proof.
  apply Prim2SF_inj. rewrite mul_spec, Prim2SF_nan. now destruct (Prim2SF a).
Qed.

Lemma div_nan_l (a : float) : nan / a = nan.
Proof.
  apply Prim2SF_inj. rewrite div_spec, Prim2SF_nan. now destruct (Prim2SF a).
Qed.

Lemma reynolds_number_nan (x y density viscosity : float) :
  x = nan \/ y = nan \/ density = nan \/ viscosity = nan ->
  reynolds_number x y density viscosity = nan.
Proof.
  unfold reynolds_number.
  intros [-> | [-> | [-> | ->]]];
    now rewrite ?mul_nan_r, ?mul_nan_l, ?div_nan_r, ?div_nan_l.
Qed.

(** X9.  A NaN argument gives NaN and raises nothing: for NumPy scalars
    when any of the four arguments is NaN, at every entry of two arrays
    of one shape where the flow rate or the diameter is NaN, and for
    plain Python floats when the diameter or the viscosity is NaN (the
    denominator is then NaN, not zero). *)
Theorem reynolds_nan_propagates (density viscosity : float) :
  (forall x y : float,
     x = nan \/ y = nan \/ density = nan \/ viscosity = nan ->
     reynolds (F64 x) (F64 y) density viscosity = Ok (F64 nan)) /\
  (forall X Y : list (list float), shape2 X = shape2 Y ->
     exists Z : list (list float),
       reynolds X Y density viscosity = Ok Z /\
       forall i j xij yij,
         entry2 X i j = Some xij -> entry2 Y i j = Some yij ->
         xij = nan \/ yij = nan \/ density = nan \/ viscosity = nan ->
         entry2 Z i j = Some nan) /\
  (forall x y : float,
     y = nan \/ viscosity = nan ->
     reynolds x y density viscosity = Ok nan).
Proof.
  split; [|split].
  - intros x y H. rewrite reynolds_float64. now rewrite reynolds_number_nan.
  - intros X0 Y0 Hshape. eexists. split; [now apply reynolds_array2|].
    intros i j xij yij HX HY H. rewrite entry2_map2, HX, HY.
    now rewrite reynolds_number_nan.
  - intros x y H. rewrite reynolds_python.
    assert (Hden : 60 * viscosity * math_pi * y = nan)
      by (destruct H as [-> | ->]; now rewrite ?mul_nan_r, ?mul_nan_l).
    rewrite Hden. cbn [is_zero]. change (is_zero nan) with false. cbv iota.
    rewrite reynolds_number_nan by tauto. reflexivity.
Qed.

Lemma reynolds_nan_propagates_witness :
  reynolds 10 nan (density defaults) (viscosity defaults) = Ok nan.
Proof.
  apply (proj2 (proj2 (reynolds_nan_propagates (density defaults)
                         (viscosity defaults)))).
  now left.
Defined.

End ReynoldsSign.

(** ** The cross-section as a row of the surface *)

Section CrossSectionRows.

Local Open Scope float_scope.

Lemma surface_row (p : params) (i : nat) :
  nth_error (diameters p) i = Some (float_of_int (y_value p)) ->
  exists f : figures,
    main p = Ok f /\ nth_error (Z_masked f) i = Some (Z_y_fixed_masked f).
Proof.
  intros Hyi. eexists. split; [apply main_returns|].
  cbn [Z_masked Z_y_fixed_masked].
  rewrite mask_array2, nth_error_map, nth_error_map2.
  unfold meshgrid. cbn [fst snd]. rewrite !nth_error_map, Hyi.
  cbn [option_map]. rewrite mask_axis. f_equal. f_equal.
  induction (flow_rates p) as [|xi l IH]; simpl; [reflexivity|].
  f_equal. apply IH.
Qed.

(** X11.  When the diameter chosen for the cross-section is the
    maximum of the diameter range, as with the defaults, the masked
    cross-section is the last row of the masked surface; when it is
    the minimum of a range given by the slider, it is the first row. *)
Theorem cross_section_is_row (p : params) :
  (y_value p = y_max p ->
   exists f : figures,
     main p = Ok f /\ nth_error (Z_masked f) 99 = Some (Z_y_fixed_masked f)) /\
  ((1 <= y_min p <= y_max p)%Z -> (y_max p <= 500)%Z ->
   y_value p = y_min p ->
   exists f : figures,
     main p = Ok f /\ nth_error (Z_masked f) 0 = Some (Z_y_fixed_masked f)).
Proof.
  split.
  - intros Hv. apply surface_row. rewrite Hv.
    exact (linspace_last (float_of_int (y_min p)) (float_of_int (y_max p))
                         one_lt_hundred).
  - intros Hlo Hhi Hv. apply surface_row. rewrite Hv.
    exact (proj1 (proj2 (linspace_axis_sequence Hlo Hhi))).
Qed.

Lemma cross_section_is_row_witness :
  exists f : figures,
    main defaults = Ok f /\ nth_error (Z_masked f) 99 = Some (Z_y_fixed_masked f).
Proof.
  apply (proj1 (cross_section_is_row defaults)). reflexivity.
Defined.

End CrossSectionRows.

(** ** The formula over the real numbers *)

Section FormulaTolerance.

Local Open Scope float_scope.

Lemma value_4 : value 4 = 4%R.
Proof.
  unfold value.
  change (Prim2SF 4) with (S754_finite false 4503599627370496 (-50)).
  cbn [SF2R sgn].
  change (-50)%Z with (- (50))%Z. rewrite powerRZ_neg'.
  change (powerRZ 2 50) with (2 ^ 50)%R.
  replace (2 ^ 50)%R with 1125899906842624%R by (simpl; lra).
  lra.
Qed.

Lemma value_60 : value 60 = 60%R.
Proof.
  unfold value.
  change (Prim2SF 60) with (S754_finite false 8444249301319680 (-47)).
  cbn [SF2R sgn].
  change (-47)%Z with (- (47))%Z. rewrite powerRZ_neg'.
  change (powerRZ 2 47) with (2 ^ 47)%R.
  replace (2 ^ 47)%R with 140737488355328%R by (simpl; lra).
  lra.
Qed.

Lemma near_value_bound (n : nat) (s t : R) (a : float) :
  near n s (value a) -> s = t -> (n <= 10)%nat ->
  (Rabs (value a - t) <= / IZR (2 ^ 48) * Rabs t)%R.
Proof.
  intros Ha <- Hn. apply near_bound with (n := n); [exact Hn|].
  now apply near_sym.
Qed.

(** X12.  The result of [reynolds] matches the formula read over the
    real numbers to floating-point tolerance: when none of its six
    products and quotients overflows or underflows (each is a normal
    number), the call returns, for Python floats as for NumPy scalars,
    and the value of the result differs from
    [4 * density * flow_rate / (60 * viscosity * pi * diameter)],
    computed without rounding from the values of the arguments and of
    [math.pi], by a relative error of [2^-48] at most. *)
Theorem reynolds_formula_tolerance (x y d v : float) :
  let r := reynolds_number x y d v in
  forallb normal [4 * d; 4 * d * x; 60 * v; 60 * v * math_pi;
                  60 * v * math_pi * y; r] = true ->
  reynolds x y d v = Ok r /\
  reynolds (F64 x) (F64 y) d v = Ok (F64 r) /\
  let exact :=
    (4 * value d * value x / (60 * value v * value math_pi * value y))%R in
  (Rabs (value r - exact) <= / IZR (2 ^ 48) * Rabs exact)%R.
Proof.
  cbv zeta. intros H. normals H.
  split; [|split; [reflexivity|]].
  - rewrite reynolds_python.
    match goal with
    | Hr : normal (reynolds_number _ _ _ _) = true |- _ =>
        rewrite (@div_normal_divisor _ _ Hr)
    end.
    reflexivity.
  - unfold reynolds_number in *.
    eapply near_value_bound;
      [approx | rewrite value_4, value_60; reflexivity | simpl; lia].
Qed.

Lemma reynolds_formula_tolerance_witness :
  let rho := density defaults in
  let mu := viscosity defaults in
  let r := reynolds_number 10 100 rho mu in
  reynolds 10 100 rho mu = Ok r /\
  (Rabs (value r
         - 4 * value rho * value 10 / (60 * value mu * value math_pi * value 100))
   <= / IZR (2 ^ 48)
      * Rabs (4 * value rho * value 10
              / (60 * value mu * value math_pi * value 100)))%R.
Proof.
  cbv zeta.
  destruct (@reynolds_formula_tolerance 10 100 (density defaults)
              (viscosity defaults) eq_refl) as (H1 & _ & H2).
  exact (conj H1 H2).
Defined.

End FormulaTolerance.
